(** * flask-simple-chats: the user model, the chats table and the
      authentication views

    A shallow embedding of [app/authentication/models.py] and
    [app/authentication/views.py].  Python exceptions are an explicit
    outcome, the database session, the two [functools.lru_cache] memo
    tables, the Flask session and the flashed messages are explicit
    state that is threaded through every call. *)

From Stdlib Require Import ZArith Lia.
From stdpp Require Import base list strings gmap.

Local Open Scope Z_scope.

(** ** Exceptions and the state-and-exception monad *)

(** The exception classes that the two modules raise or let escape.
    [BadHeader] and [SignatureExpired] are subclasses of [BadSignature]
    in itsdangerous; [HTTPNotFound] is what [abort(404)] raises. *)
Inductive exn : Type :=
  | UserNotFoundByIndexError
  | ChatNotFoundByIndexesError
  | ChatAlreadyExistsError
  | MultipleResultsFound
  | TypeError
  | KeyError
  | BadRequestKeyError
  | BadSignature
  | BadHeader
  | SignatureExpired
  | ValidationError (message : string)
  | HTTPNotFound.

Inductive outcome (A : Type) : Type :=
  | Return (a : A)
  | Raise (e : exn).
Arguments Return {A} a.
Arguments Raise {A} e.

(** A computation reads and writes a state [S]; a raised exception keeps
    the state it was raised in (Python does not undo side effects). *)
Definition M (S A : Type) : Type := S → outcome A * S.

Definition ret {S A} (a : A) : M S A := λ s, (Return a, s).
Definition raise {S A} (e : exn) : M S A := λ s, (Raise e, s).
Definition bind {S A B} (c : M S A) (k : A → M S B) : M S B :=
  λ s, match c s with
       | (Return a, s') => k a s'
       | (Raise e, s') => (Raise e, s')
       end.
Definition gets {S A} (f : S → A) : M S A := λ s, (Return (f s), s).
Definition modify {S} (f : S → S) : M S unit := λ s, (Return tt, f s).
Definition lift_outcome {S A} (o : outcome A) : M S A := λ s, (o, s).

Notation "x <- c ;; k" := (bind c (λ x, k))
  (at level 100, c at next level, right associativity).
Notation "c ;; k" := (bind c (λ _, k))
  (at level 100, right associativity).

(** ** The chats table and its two memoized queries *)

Module Chats.

(** A row of [db.Table('chats', chat_id, user1_id, user2_id)]. *)
Record Chat : Type := mkChat { chat_id : Z; user1_id : Z; user2_id : Z }.

(** One [functools.lru_cache] table: positional-argument key to cached
    result, most recently used entry first. *)
Definition cache (V : Type) : Type := list ((Z * Z) * V).

Record Store : Type := mkStore {
  chats : list Chat;
  is_chat_between_cache : cache bool;
  get_chat_id_by_users_ids_cache : cache Z
}.

Definition empty_store : Store := mkStore [] [] [].

Definition set_chats (f : list Chat → list Chat) (s : Store) : Store :=
  mkStore (f (chats s)) (is_chat_between_cache s) (get_chat_id_by_users_ids_cache s).
Definition set_is_chat_between_cache (f : cache bool → cache bool) (s : Store) : Store :=
  mkStore (chats s) (f (is_chat_between_cache s)) (get_chat_id_by_users_ids_cache s).
Definition set_get_chat_id_by_users_ids_cache (f : cache Z → cache Z) (s : Store) : Store :=
  mkStore (chats s) (is_chat_between_cache s) (f (get_chat_id_by_users_ids_cache s)).

(** [sorted([user1_id, user2_id])] unpacked into two names. *)
Definition sorted (a b : Z) : Z * Z := (Z.min a b, Z.max a b).

(** [WHERE chats.user1_id = lo AND chats.user2_id = hi]. *)
Definition where_pair (lo hi : Z) (t : list Chat) : list Chat :=
  filter (λ r, user1_id r = lo ∧ user2_id r = hi) t.

(** [Query.scalar()]: no row gives [None], one row gives its first
    column, more rows raise. *)
Definition scalar {A} (rows : list A) : outcome (option A) :=
  match rows with
  | [] => Return None
  | [x] => Return (Some x)
  | _ => Raise MultipleResultsFound
  end.

(** The value the database gives the integer primary key of a new row:
    one more than the largest key in the table, 1 in an empty table (the
    model test expects the row [(1, 1, 2)] again after a delete). *)
Definition next_chat_id (t : list Chat) : Z :=
  1 + foldr Z.max 0 (chat_id <$> t).

(** *** [functools.lru_cache(maxsize=256)] *)

Definition maxsize : nat := 256.

Fixpoint cache_get {V} (k : Z * Z) (c : cache V) : option V :=
  match c with
  | [] => None
  | (k', v) :: c' => if decide (k' = k) then Some v else cache_get k c'
  end.

Definition cache_drop {V} (k : Z * Z) (c : cache V) : cache V :=
  filter (λ e, e.1 ≠ k) c.

(** A hit returns the stored result and makes the entry the most recent;
    a miss runs the wrapped body, stores a returned result (evicting the
    least recent entry beyond [maxsize]) and stores nothing when the body
    raises. *)
Definition lru_cache {V} (k : Z * Z) (body : outcome V) (c : cache V)
  : outcome V * cache V :=
  match cache_get k c with
  | Some v => (Return v, (k, v) :: cache_drop k c)
  | None =>
      match body with
      | Return v => (Return v, take maxsize ((k, v) :: c))
      | Raise e => (Raise e, c)
      end
  end.

(** *** The wrapped bodies (what an uncached call computes) *)

Definition is_chat_between_body (user1_id user2_id : Z) (t : list Chat)
  : outcome bool :=
  let '(user1_id, user2_id) := sorted user1_id user2_id in
  Return (bool_decide (where_pair user1_id user2_id t ≠ [])).

Definition get_chat_id_by_users_ids_body (user1_id user2_id : Z) (t : list Chat)
  : outcome Z :=
  let '(user1_id, user2_id) := sorted user1_id user2_id in
  match scalar (chat_id <$> where_pair user1_id user2_id t) with
  | Raise e => Raise e
  | Return None => Raise ChatNotFoundByIndexesError
  | Return (Some chat_id) =>
      if decide (chat_id = 0) then Raise ChatNotFoundByIndexesError
      else Return chat_id
  end.

(** *** The memoized static methods *)

Definition is_chat_between (user1_id user2_id : Z) : M Store bool :=
  λ s,
    let '(r, c) := lru_cache (user1_id, user2_id)
                     (is_chat_between_body user1_id user2_id (chats s))
                     (is_chat_between_cache s) in
    (r, set_is_chat_between_cache (λ _, c) s).

Definition get_chat_id_by_users_ids (user1_id user2_id : Z) : M Store Z :=
  λ s,
    let '(r, c) := lru_cache (user1_id, user2_id)
                     (get_chat_id_by_users_ids_body user1_id user2_id (chats s))
                     (get_chat_id_by_users_ids_cache s) in
    (r, set_get_chat_id_by_users_ids_cache (λ _, c) s).

Definition is_chat_between_cache_clear : M Store unit :=
  modify (set_is_chat_between_cache (λ _, [])).
Definition get_chat_id_by_users_ids_cache_clear : M Store unit :=
  modify (set_get_chat_id_by_users_ids_cache (λ _, [])).

(** *** The two mutations *)

Definition create_chat (user1_id user2_id : Z) : M Store unit :=
  let '(user1_id, user2_id) := sorted user1_id user2_id in
  between <- is_chat_between user1_id user2_id ;;
  if negb between then
    modify (set_chats (λ t, t ++ [mkChat (next_chat_id t) user1_id user2_id])) ;;
    is_chat_between_cache_clear
  else
    raise ChatAlreadyExistsError.

(** [x or y] on an optional integer: [None] and [0] are falsy. *)
Definition truthy (chat_id : option Z) : option Z :=
  match chat_id with
  | Some c => if decide (c = 0) then None else Some c
  | None => None
  end.

(** The call with the starred argument [two_users_ids]: unpacking [None]
    or a list that does not have exactly two items is a [TypeError]. *)
Definition get_chat_id_by_users_ids_star (two_users_ids : option (list Z))
  : M Store Z :=
  match two_users_ids with
  | Some [a; b] => get_chat_id_by_users_ids a b
  | _ => raise TypeError
  end.

Definition delete_chat (two_users_ids : option (list Z)) (chat_id : option Z)
  : M Store unit :=
  chat_id <- match truthy chat_id with
             | Some c => ret c
             | None => get_chat_id_by_users_ids_star two_users_ids
             end ;;
  modify (set_chats (filter (λ r, Chats.chat_id r ≠ chat_id))) ;;
  is_chat_between_cache_clear ;;
  get_chat_id_by_users_ids_cache_clear.

(** *** The states a process can be in *)

(** A call of one of the four static methods, with its arguments. *)
Inductive call : Type :=
  | call_create_chat (user1_id user2_id : Z)
  | call_delete_chat (two_users_ids : option (list Z)) (chat_id : option Z)
  | call_is_chat_between (user1_id user2_id : Z)
  | call_get_chat_id_by_users_ids (user1_id user2_id : Z).

(** The state a call leaves behind, whether it returned or raised. *)
Definition after (c : call) (s : Store) : Store :=
  match c with
  | call_create_chat a b => snd (create_chat a b s)
  | call_delete_chat p c => snd (delete_chat p c s)
  | call_is_chat_between a b => snd (is_chat_between a b s)
  | call_get_chat_id_by_users_ids a b => snd (get_chat_id_by_users_ids a b s)
  end.

(** The states reached from an empty table and empty memo tables by any
    sequence of calls. *)
Inductive reachable : Store → Prop :=
  | reachable_empty : reachable empty_store
  | reachable_after c s : reachable s → reachable (after c s).

(** A mutation that completed: a [create_chat] or a [delete_chat] that
    returned, taking the state [s] to [s']. *)
Definition mutation (s s' : Store) : Prop :=
  (∃ a b, create_chat a b s = (Return tt, s'))
  ∨ (∃ p c, delete_chat p c s = (Return tt, s')).

(** Every entry of a memo table holds what the wrapped body returns on
    the present table. *)
Definition agrees {V} (body : Z → Z → outcome V) (c : cache V) : Prop :=
  Forall (λ e, body e.1.1 e.1.2 = Return e.2) c.

Definition coherent (s : Store) : Prop :=
  agrees (λ a b, is_chat_between_body a b (chats s)) (is_chat_between_cache s)
  ∧ agrees (λ a b, get_chat_id_by_users_ids_body a b (chats s))
           (get_chat_id_by_users_ids_cache s).

(** *** The shape of the table and of a memo table *)

#[global] Instance Chat_eq_dec : EqDecision Chat.
Proof. solve_decision. Defined.

(** The two user columns of a row. *)
Definition pair_of (r : Chat) : Z * Z := (user1_id r, user2_id r).

(** Rows hold ascending pairs under positive keys, no key and no pair
    twice. *)
Definition table_ok (t : list Chat) : Prop :=
  Forall (λ r, user1_id r ≤ user2_id r ∧ 0 < chat_id r) t
  ∧ NoDup (chat_id <$> t)
  ∧ NoDup (pair_of <$> t).

(** A memo table within its bound and with one entry per key. *)
Definition cache_ok {V} (c : cache V) : Prop :=
  (length c ≤ maxsize)%nat ∧ NoDup (c.*1).

End Chats.

(** ** Users, signed tokens and the authentication views *)

Module Auth.

(** A row of the [users] table ([date_joined] as a timestamp). *)
Record User : Type := mkUser {
  user_id : Z;
  username : string;
  email : string;
  name : string;
  password_hash : string;
  date_joined : Z
}.

(** The header of a timed JSON web signature and the token on the wire:
    either a string that does not split and decode into header, payload
    and signature, or the three decoded parts.  The payload is the JSON
    object that was signed. *)
Record JWSHeader : Type := mkHeader { iat : Z; exp : Z }.

Inductive Token : Type :=
  | Malformed (raw : string)
  | JWS (header : JWSHeader) (payload : gmap string Z) (sig : Z).

(** What the code takes from its surroundings: [current_app.config], the
    keyed signature of itsdangerous, the salted hash of werkzeug, and the
    two constants of [app.authentication.validators]. *)
Record Env : Type := mkEnv {
  SECRET_KEY : string;
  PASSWORD_DEFAULT_EXPIRES_IN : Z;
  AUTHENTICATION_TOKEN_DEFAULT_EXPIRES_IN : Z;
  signature : string → JWSHeader → gmap string Z → Z;
  generate_password_hash : string → string;
  email_format : string → bool;
  min_password_length : nat;
  email_format_message : string;
  password_length_message : string
}.

(** The request-visible state: the [users] table as the session sees it,
    the Flask [session], the flashed messages (oldest first) and
    [g.user]. *)
Record App : Type := mkApp {
  users : list User;
  session : gmap string Z;
  flashed : list string;
  g_user : option User
}.

Definition set_users (f : list User → list User) (st : App) : App :=
  mkApp (f (users st)) (session st) (flashed st) (g_user st).
Definition set_g_user (u : option User) (st : App) : App :=
  mkApp (users st) (session st) (flashed st) u.
Definition flash (message : string) : M App unit :=
  modify (λ st, mkApp (users st) (session st) (flashed st ++ [message]) (g_user st)).

Inductive response : Type :=
  | render_template (template : string) (user : option User)
  | redirect (endpoint : string).

#[global] Instance exn_eq_dec : EqDecision exn.
Proof. solve_decision. Defined.

(** [isinstance(e, cls)] for the classes named in [except] clauses. *)
Definition isinstance (e cls : exn) : bool :=
  bool_decide (e = cls)
  || (bool_decide (cls = BadSignature)
      && (bool_decide (e = BadHeader) || bool_decide (e = SignatureExpired))).

(** [try: c  except ...: handler]; [handler e = None] when no clause
    matches [e], which then propagates. *)
Definition try_except {S A} (c : M S A) (handler : exn → option (M S A)) : M S A :=
  λ s, match c s with
       | (Return a, s') => (Return a, s')
       | (Raise e, s') =>
           match handler e with
           | Some h => h s'
           | None => (Raise e, s')
           end
       end.

Section WithEnv.
Variable env : Env.

(** *** [TimedJSONWebSignatureSerializer] *)

Definition dumps (secret_key : string) (expires_in now : Z)
    (payload : gmap string Z) : Token :=
  let header := mkHeader now (now + expires_in) in
  JWS header payload (signature env secret_key header payload).

Definition loads (secret_key : string) (now : Z) (token : Token)
  : outcome (gmap string Z) :=
  match token with
  | Malformed _ => Raise BadSignature
  | JWS header payload sig =>
      if decide (sig = signature env secret_key header payload) then
        if decide (exp header < 0) then Raise BadHeader
        else if decide (exp header < now) then Raise SignatureExpired
        else Return payload
      else Raise BadSignature
  end.

(** [d[key]] on a decoded payload. *)
Definition getitem (d : gmap string Z) (key : string) : outcome Z :=
  match d !! key with
  | Some v => Return v
  | None => Raise KeyError
  end.

(** *** The [User] model *)

(** [cls.query.get(user_id)]. *)
Definition query_get (id : Z) (t : list User) : option User :=
  head (filter (λ u, user_id u = id) t).

Definition get_user_by_id (id : Z) : M App User :=
  λ st, match query_get id (users st) with
        | Some user => (Return user, st)
        | None => (Raise UserNotFoundByIndexError, st)
        end.

(** [if not expiration_period: expiration_period = default]. *)
Definition or_default (period : option Z) (default : Z) : Z :=
  match period with
  | Some p => if decide (p = 0) then default else p
  | None => default
  end.

Definition get_reset_password_token (self : User) (expiration_period : option Z)
    (now : Z) : Token :=
  let expiration_period := or_default expiration_period (PASSWORD_DEFAULT_EXPIRES_IN env) in
  let secret_key := SECRET_KEY env in
  dumps secret_key expiration_period now {[ "user_id" := user_id self ]}.

Definition get_user_by_reset_password_token (now : Z) (token : Token) : M App User :=
  payload <- lift_outcome (loads (SECRET_KEY env) now token) ;;
  id <- lift_outcome (getitem payload "user_id") ;;
  get_user_by_id id.

Definition get_authentication_token (self : User) (expires_in : option Z)
    (now : Z) : Token :=
  let expires_in := or_default expires_in (AUTHENTICATION_TOKEN_DEFAULT_EXPIRES_IN env) in
  dumps (SECRET_KEY env) expires_in now {[ "user_id" := user_id self ]}.

Definition get_user_by_authentication_token (now : Z) (token : Token) : M App User :=
  payload <- lift_outcome (loads (SECRET_KEY env) now token) ;;
  id <- lift_outcome (getitem payload "user_id") ;;
  get_user_by_id id.

Definition set_password (self : User) (password : string) : User :=
  mkUser (user_id self) (username self) (email self) (name self)
         (generate_password_hash env password) (date_joined self).

(** *** [recognize_logged_in_user] *)

Definition recognize_logged_in_user : M App unit :=
  current_user_id <- gets (λ st, session st !! "current_user_id") ;;
  user <- match current_user_id with
          | Some id => u <- get_user_by_id id ;; ret (Some u)
          | None => ret None
          end ;;
  modify (set_g_user user).

(** *** The validators of [app.authentication.validators] *)

(** Modelled from the spec: [validate_email] is not among the sources;
    the register flow is to "validate email format".  The format itself
    and the message of the error are taken from [env]. *)
Definition validate_email (email : string) : outcome unit :=
  if email_format env email then Return tt
  else Raise (ValidationError (email_format_message env)).

(** Modelled from the spec: [validate_length] is not among the sources;
    the register flow checks "name length bounds" and the caller passes
    the bounds and the message. *)
Definition validate_length (value : string) (low high : nat) (error_message : string)
  : outcome unit :=
  if bool_decide (low ≤ String.length value ≤ high)%nat then Return tt
  else Raise (ValidationError error_message).

(** Modelled from the spec: [validate_equal_passwords] is not among the
    sources; the flows check "password-pair equality", and the client
    test reads the message back. *)
Definition validate_equal_passwords (password1 password2 : string) : outcome unit :=
  if decide (password1 = password2) then Return tt
  else Raise (ValidationError "Given passwords do not match").

(** Modelled from the spec: [validate_password_length] is not among the
    sources; the flows check a "password minimum length". *)
Definition validate_password_length (password : string) : outcome unit :=
  if bool_decide (min_password_length env ≤ String.length password)%nat then Return tt
  else Raise (ValidationError (password_length_message env)).

(** *** Requests and the database session *)

(** [request.form[key]]: a missing field is a [BadRequestKeyError]. *)
Definition form_get {S} (form : gmap string string) (key : string) : M S string :=
  match form !! key with
  | Some v => ret v
  | None => raise BadRequestKeyError
  end.

(** [User.query.filter_by(...).first()]. *)
Definition filter_by_email (e : string) (t : list User) : option User :=
  head (filter (λ u, email u = e) t).
Definition filter_by_username (n : string) (t : list User) : option User :=
  head (filter (λ u, username u = n) t).

Definition next_user_id (t : list User) : Z :=
  1 + foldr Z.max 0 (user_id <$> t).

(** [db.session.add(user); db.session.commit()] for a new object: the
    row gets its key and its [date_joined] default. *)
Definition add_commit_new (email username name password_hash : string) (now : Z)
  : M App unit :=
  modify (set_users (λ t, t ++ [mkUser (next_user_id t) username email name
                                       password_hash now])).

(** The same two calls for an object loaded from the table: its row is
    rewritten. *)
Definition add_commit (user : User) : M App unit :=
  modify (set_users (fmap (λ u, if decide (user_id u = user_id user) then user else u))).

(** The clause [except ValidationError as error: flash(error.message);
    return render_template(template)]. *)
Definition except_ValidationError (page : response) (e : exn)
  : option (M App (option response)) :=
  match e with
  | ValidationError message => Some (flash message ;; ret (Some page))
  | _ => None
  end.

(** *** [RegisterView.post] *)

Definition RegisterView_post (form : gmap string string) (now : Z) : M App response :=
  email <- form_get form "email" ;;
  username <- form_get form "username" ;;
  name <- form_get form "name" ;;
  password1 <- form_get form "password1" ;;
  password2 <- form_get form "password2" ;;
  returned <- try_except
    (lift_outcome (validate_email email) ;;
     lift_outcome (validate_length name 3 25
       "Please, input name with a length between 3 and 25 chars") ;;
     lift_outcome (validate_equal_passwords password1 password2) ;;
     lift_outcome (validate_password_length password2) ;;
     ret None)
    (except_ValidationError (render_template "authentication/register.html" None)) ;;
  match returned with
  | Some page => ret page
  | None =>
      by_email <- gets (λ st, filter_by_email email (users st)) ;;
      if bool_decide (is_Some by_email) then
        flash "User with such an email has been registered!" ;;
        ret (render_template "authentication/register.html" None)
      else
        by_username <- gets (λ st, filter_by_username username (users st)) ;;
        if bool_decide (is_Some by_username) then
          flash "This username is busy! Try putting another one" ;;
          ret (render_template "authentication/register.html" None)
        else
          add_commit_new email username name (generate_password_hash env password2) now ;;
          flash "Successfully registered!" ;;
          ret (redirect "authentication.login")
  end.

(** *** [ResetPasswordView] *)

Definition ResetPasswordView_get (token : Token) (now : Z) : M App response :=
  try_except
    (user <- get_user_by_reset_password_token now token ;;
     ret (render_template "authentication/reset_password.html" (Some user)))
    (λ e, if isinstance e SignatureExpired then
            Some (ret (render_template "authentication/reset_password_expired.html" None))
          else if isinstance e BadSignature then
            Some (raise HTTPNotFound)
          else None).

Definition ResetPasswordView_post (token : Token) (form : gmap string string) (now : Z)
  : M App response :=
  password1 <- form_get form "password1" ;;
  password2 <- form_get form "password2" ;;
  user <- get_user_by_reset_password_token now token ;;
  returned <- try_except
    (lift_outcome (validate_equal_passwords password1 password2) ;;
     lift_outcome (validate_password_length password2) ;;
     ret None)
    (except_ValidationError
       (render_template "authentication/reset_password.html" (Some user))) ;;
  match returned with
  | Some page => ret page
  | None =>
      add_commit (set_password user password2) ;;
      flash "You password was successfully reset" ;;
      ret (redirect "authentication.login")
  end.

(** *** What a view does to the users table *)

(** Computations that leave the users table as it is, whether they
    return or raise. *)
Definition keeps_users {A} (c : M App A) : Prop :=
  ∀ st, users (c st).2 = users st.

(** Views that leave the users table as it is unless they end in the
    redirect to the login page. *)
Definition keeps_users_unless_login (c : M App response) : Prop :=
  ∀ st, users (c st).2 = users st ∨ (c st).1 = Return (redirect "authentication.login").

(** *** The two token classes side by side *)

Inductive token_class : Type := reset_password | authentication.

Definition default_expires_in (k : token_class) : Z :=
  match k with
  | reset_password => PASSWORD_DEFAULT_EXPIRES_IN env
  | authentication => AUTHENTICATION_TOKEN_DEFAULT_EXPIRES_IN env
  end.

Definition get_token (k : token_class) : User → option Z → Z → Token :=
  match k with
  | reset_password => get_reset_password_token
  | authentication => get_authentication_token
  end.

Definition get_user_by_token (k : token_class) : Z → Token → M App User :=
  match k with
  | reset_password => get_user_by_reset_password_token
  | authentication => get_user_by_authentication_token
  end.

End WithEnv.

(** *** An instance to run the model on *)

Definition test_signature (key : string) (header : JWSHeader) (payload : gmap string Z) : Z :=
  Z.of_nat (String.length key) + 3 * iat header + 5 * exp header
  + 7 * default 0 (payload !! "user_id").

Definition test_env : Env :=
  mkEnv "secret" 3600 86400 test_signature (λ password, "salted:" +:+ password)
        (λ email, bool_decide (is_Some (String.index 0 "@" email))) 6
        "Invalid email" "Password is too short".

Definition user1 : User := mkUser 1 "user1" "user1@gmail.com" "name1" "123" 0.
Definition user2 : User := mkUser 2 "user2" "user2@gmail.com" "name2" "123" 0.

Definition test_app : App := mkApp [user1; user2] ∅ [] None.

End Auth.

(** ** Login, logout and the forgotten password *)

Module Views.
Import Auth.

(** Ids, emails and usernames each occur once in the users table. *)
Definition users_ok (t : list User) : Prop :=
  NoDup (user_id <$> t) ∧ NoDup (email <$> t) ∧ NoDup (username <$> t).

(** Where a redirect leads: [url_for(endpoint)], or a URL taken from the
    request as it came. *)
Inductive location : Type :=
  | url_for (endpoint : string)
  | url (href : string).

Inductive reply : Type :=
  | reply_template (template : string)
  | reply_redirect (to : location).

Definition set_session (f : gmap string Z → gmap string Z) (st : App) : App :=
  mkApp (users st) (f (session st)) (flashed st) (g_user st).

(** [request.args.get('next') or url_for('view.index')]: a missing or
    empty [next] is falsy. *)
Definition next_or_index (args : gmap string string) : location :=
  match args !! "next" with
  | Some href => if decide (href = "") then url_for "view.index" else url href
  | None => url_for "view.index"
  end.

Section WithHash.
(** [werkzeug.security.check_password_hash]. *)
Variable check_password_hash : string → string → bool.

Definition verify_password (self : User) (password : string) : bool :=
  check_password_hash (password_hash self) password.

(** *** [LoginView.post] *)

Definition LoginView_post (form args : gmap string string) : M App reply :=
  email <- form_get form "email" ;;
  password <- form_get form "password" ;;
  user <- gets (λ st, filter_by_email email (users st)) ;;
  match user with
  | None =>
      flash "Wrong email! Maybe, you have not registered" ;;
      ret (reply_template "authentication/login.html")
  | Some user =>
      if negb (verify_password user password) then
        flash "Wrong password! Try again" ;;
        ret (reply_template "authentication/login.html")
      else
        flash "Successfully logged in!" ;;
        modify (set_session (insert "current_user_id" (user_id user))) ;;
        ret (reply_redirect (next_or_index args))
  end.

End WithHash.

(** *** [logout] *)

(** [session.clear()] empties the session, and with it the flashed
    messages that Flask keeps inside the session until they are shown. *)
Definition session_clear : M App unit :=
  modify (λ st, mkApp (users st) ∅ [] (g_user st)).

Definition logout : M App reply :=
  session_clear ;;
  flash "Successfully logged out" ;;
  ret (reply_redirect (url_for "view.index")).

(** *** [ForgotPasswordView.post] *)

(** A message handed to [send_mail]: the address, the subject, and the
    text as the template it is rendered from with its [user] and
    [token]. *)
Record Mail : Type := mkMail {
  recipient : string;
  subject : string;
  text_template : string;
  text_user : User;
  text_token : Token
}.

(** A computation on the request state, run beside the outbox. *)
Definition in_app {A} (c : M App A) : M (App * list Mail) A :=
  λ w, let '(r, st) := c w.1 in (r, (st, w.2)).

(** Modelled from the spec: [send_mail] of [app.authentication.email] is
    not among the sources; the spec has an "outbound message with
    subject/body sent to the target user's address".  The message is
    appended to an outbox. *)
Definition send_mail (m : Mail) : M (App * list Mail) unit :=
  modify (λ w, (w.1, w.2 ++ [m])).

Definition ForgotPasswordView_post (env : Env) (form : gmap string string) (now : Z)
  : M (App * list Mail) response :=
  email <- form_get form "email" ;;
  returned <- in_app (try_except
    (lift_outcome (validate_email env email) ;; ret None)
    (except_ValidationError
       (render_template "authentication/forgot_password.html" None))) ;;
  match returned with
  | Some page => ret page
  | None =>
      user <- in_app (gets (λ st, filter_by_email email (users st))) ;;
      match user with
      | Some user =>
          in_app (flash "Check Your e-email to reset the password!") ;;
          send_mail (mkMail (Auth.email user) "Flask simple chats reset password"
                            "authentication/emails/reset_password.txt" user
                            (get_reset_password_token env user None now)) ;;
          ret (redirect "authentication.login")
      | None =>
          in_app (flash "User with such an e-mail does not exist") ;;
          ret (render_template "authentication/forgot_password.html" None)
      end
  end.

(** [check_password_hash] for [test_env]. *)
Definition test_check_password_hash (pwhash password : string) : bool :=
  bool_decide (pwhash = "salted:" +:+ password).

End Views.

(** * Facts about the chats table and its memo tables *)

Section ChatsFacts.
Import Chats.

Lemma cache_get_elem {V} (k : Z * Z) (c : cache V) (v : V) :
  cache_get k c = Some v → (k, v) ∈ c.
Proof.
  induction c as [|[k' v'] c IH]; simpl; [done|].
  case_decide as Hk.
  - intros [= ->]. subst. left.
  - intros H. right. by apply IH.
Qed.

Lemma lru_cache_agrees {V} (body : Z → Z → outcome V) (a b : Z) (c : cache V) :
  agrees body c →
  (lru_cache (a, b) (body a b) c).1 = body a b
  ∧ agrees body (lru_cache (a, b) (body a b) c).2.
Proof.
  intros Hc. unfold lru_cache.
  destruct (cache_get (a, b) c) as [v|] eqn:Hget; cbn [fst snd].
  - apply cache_get_elem in Hget.
    assert (Hv : body a b = Return v).
    { unfold agrees in Hc. rewrite Forall_forall in Hc. apply (Hc _ Hget). }
    split; [done|]. apply Forall_cons. split; [exact Hv|].
    unfold cache_drop. unfold agrees in *. rewrite Forall_forall in Hc |- *.
    intros e He. apply list_elem_of_filter in He as [_ He]. by apply Hc.
  - destruct (body a b) as [v|e] eqn:Hb; cbn [fst snd]; [|done].
    split; [done|]. apply Forall_take. apply Forall_cons. by split.
Qed.


Lemma is_chat_between_coherent (a b : Z) (s : Store) :
  coherent s →
  (is_chat_between a b s).1 = is_chat_between_body a b (chats s)
  ∧ chats (is_chat_between a b s).2 = chats s
  ∧ get_chat_id_by_users_ids_cache (is_chat_between a b s).2
    = get_chat_id_by_users_ids_cache s
  ∧ coherent (is_chat_between a b s).2.
Proof.
  intros [He Hi]. unfold is_chat_between.
  pose proof (lru_cache_agrees (λ a b, is_chat_between_body a b (chats s)) a b _ He)
    as [Hr Hc]. cbn beta in Hr, Hc.
  destruct (lru_cache _ _ _) as [r c]. cbn in *. repeat split; done.
Qed.

Lemma get_chat_id_by_users_ids_coherent (a b : Z) (s : Store) :
  coherent s →
  (get_chat_id_by_users_ids a b s).1 = get_chat_id_by_users_ids_body a b (chats s)
  ∧ chats (get_chat_id_by_users_ids a b s).2 = chats s
  ∧ is_chat_between_cache (get_chat_id_by_users_ids a b s).2 = is_chat_between_cache s
  ∧ coherent (get_chat_id_by_users_ids a b s).2.
Proof.
  intros [He Hi]. unfold get_chat_id_by_users_ids.
  pose proof (lru_cache_agrees (λ a b, get_chat_id_by_users_ids_body a b (chats s)) a b _ Hi)
    as [Hr Hc]. cbn beta in Hr, Hc.
  destruct (lru_cache _ _ _) as [r c]. cbn in *. repeat split; done.
Qed.

Lemma sorted_sorted (a b : Z) :
  sorted (Z.min a b) (Z.max a b) = (Z.min a b, Z.max a b).
Proof. unfold sorted. f_equal; lia. Qed.

Lemma sorted_comm (a b : Z) : sorted a b = sorted b a.
Proof. unfold sorted. f_equal; lia. Qed.

Lemma where_pair_snoc (x y : Z) (t : list Chat) (r : Chat) :
  where_pair x y (t ++ [r])
  = where_pair x y t ++ (if decide (user1_id r = x ∧ user2_id r = y) then [r] else []).
Proof.
  unfold where_pair. by rewrite filter_app.
Qed.

(** What [create_chat] does, by the answer of the existence check. *)
Lemma create_chat_cases (a b : Z) (s : Store) :
  let q := is_chat_between (Z.min a b) (Z.max a b) s in
  create_chat a b s =
    match q.1 with
    | Return false =>
        (Return tt,
         mkStore (chats q.2 ++ [mkChat (next_chat_id (chats q.2)) (Z.min a b) (Z.max a b)])
                 [] (get_chat_id_by_users_ids_cache q.2))
    | Return true => (Raise ChatAlreadyExistsError, q.2)
    | Raise e => (Raise e, q.2)
    end.
Proof.
  intros q. unfold create_chat, sorted, bind. fold q.
  destruct q as [[[|]|e] s']; reflexivity.
Qed.


(** A row for a pair that has none yet changes no lookup that found an
    id. *)
Lemma get_chat_id_by_users_ids_body_snoc (a b i n lo hi : Z) (t : list Chat) :
  where_pair lo hi t = [] →
  get_chat_id_by_users_ids_body a b t = Return i →
  get_chat_id_by_users_ids_body a b (t ++ [mkChat n lo hi]) = Return i.
Proof.
  intros Hnone. unfold get_chat_id_by_users_ids_body.
  destruct (sorted a b) as [x y]. rewrite where_pair_snoc. cbn [user1_id user2_id].
  case_decide as Hxy.
  - destruct Hxy as [-> ->]. rewrite Hnone. cbn. discriminate.
  - by rewrite app_nil_r.
Qed.

Lemma is_chat_between_body_false (a b : Z) (t : list Chat) :
  is_chat_between_body a b t = Return false ↔ where_pair (Z.min a b) (Z.max a b) t = [].
Proof.
  unfold is_chat_between_body, sorted. split.
  - intros [= H]. apply bool_decide_eq_false in H.
    destruct (where_pair _ _ t); [done|]. by destruct H.
  - intros ->. done.
Qed.

Lemma create_chat_coherent (a b : Z) (s : Store) :
  coherent s → coherent (create_chat a b s).2.
Proof.
  intros Hs. rewrite create_chat_cases. cbn zeta.
  destruct (is_chat_between_coherent (Z.min a b) (Z.max a b) s Hs)
    as (Hr & Ht & Hi & Hc).
  destruct (is_chat_between _ _ s) as [r s1]. cbn [fst snd] in *. subst r.
  destruct (is_chat_between_body _ _ (chats s)) as [[|]|e] eqn:Hb; cbn [snd]; try done.
  apply is_chat_between_body_false in Hb.
  assert (Z.min (Z.min a b) (Z.max a b) = Z.min a b) as Hmin by lia.
  assert (Z.max (Z.min a b) (Z.max a b) = Z.max a b) as Hmax by lia.
  rewrite Hmin, Hmax in Hb.
  split; cbn; [apply Forall_nil_2|].
  destruct Hc as [_ Hc]. unfold agrees in *. rewrite Ht in *.
  eapply Forall_impl; [exact Hc|]. intros [[x y] i] Hxy. cbn in *.
  by apply get_chat_id_by_users_ids_body_snoc.
Qed.

(** What [delete_chat] does, by the way the chat id is found. *)
Lemma delete_chat_cases (p : option (list Z)) (c : option Z) (s : Store) :
  delete_chat p c s =
    match truthy c with
    | Some i => (Return tt, mkStore (filter (λ r, chat_id r ≠ i) (chats s)) [] [])
    | None =>
        let q := get_chat_id_by_users_ids_star p s in
        match q.1 with
        | Return i => (Return tt, mkStore (filter (λ r, chat_id r ≠ i) (chats q.2)) [] [])
        | Raise e => (Raise e, q.2)
        end
    end.
Proof.
  unfold delete_chat, bind. destruct (truthy c) as [i|]; [reflexivity|].
  cbn zeta. destruct (get_chat_id_by_users_ids_star p s) as [[i|e] s']; reflexivity.
Qed.

Lemma get_chat_id_by_users_ids_star_coherent (p : option (list Z)) (s : Store) :
  coherent s → coherent (get_chat_id_by_users_ids_star p s).2.
Proof.
  intros Hs. destruct p as [[|a [|b [|]]]|]; try exact Hs.
  by apply get_chat_id_by_users_ids_coherent.
Qed.

Lemma delete_chat_coherent (p : option (list Z)) (c : option Z) (s : Store) :
  coherent s → coherent (delete_chat p c s).2.
Proof.
  intros Hs. rewrite delete_chat_cases.
  destruct (truthy c) as [i|]; [split; apply Forall_nil_2|].
  cbn zeta. pose proof (get_chat_id_by_users_ids_star_coherent p s Hs) as Hq.
  destruct (get_chat_id_by_users_ids_star p s) as [[i|e] s']; cbn [fst snd] in *;
    [split; apply Forall_nil_2 | done].
Qed.

(** The memo tables of a reachable state hold nothing stale. *)
Lemma reachable_coherent (s : Store) : reachable s → coherent s.
Proof.
  induction 1 as [|c s _ IH].
  - split; apply Forall_nil_2.
  - destruct c; cbn [after].
    + by apply create_chat_coherent.
    + by apply delete_chat_coherent.
    + by apply is_chat_between_coherent.
    + by apply get_chat_id_by_users_ids_coherent.
Qed.


Lemma mutation_coherent (s s' : Store) : coherent s → mutation s s' → coherent s'.
Proof.
  intros Hs [(a & b & H)|(p & c & H)].
  - pose proof (create_chat_coherent a b s Hs) as Hc. by rewrite H in Hc.
  - pose proof (delete_chat_coherent p c s Hs) as Hc. by rewrite H in Hc.
Qed.

(** C1. After a create_chat or a delete_chat that returned, in any state
    the process can be in, the next memoized read of either function
    gives, for every pair of arguments, exactly what the uncached body
    gives on the table as it now is. *)
Theorem caches_agree_after_mutation (s s' : Store) (a b : Z) :
  reachable s → mutation s s' →
  (is_chat_between a b s').1 = is_chat_between_body a b (chats s')
  ∧ (get_chat_id_by_users_ids a b s').1 = get_chat_id_by_users_ids_body a b (chats s').
Proof.
  intros Hs Hm.
  assert (coherent s') as Hc by eauto using mutation_coherent, reachable_coherent.
  split.
  - by apply is_chat_between_coherent.
  - by apply get_chat_id_by_users_ids_coherent.
Qed.

Lemma caches_agree_after_mutation_witness :
  let s := after (call_get_chat_id_by_users_ids 1 2) (after (call_create_chat 1 2) empty_store) in
  let s' := (create_chat 3 1 s).2 in
  (is_chat_between 2 1 s').1 = is_chat_between_body 2 1 (chats s')
  ∧ (get_chat_id_by_users_ids 2 1 s').1 = get_chat_id_by_users_ids_body 2 1 (chats s').
Proof.
  intros s s'. apply (caches_agree_after_mutation s s' 2 1).
  - subst s. apply reachable_after, reachable_after, reachable_empty.
  - left. exists 3, 1. reflexivity.
Defined.


(** The state after a [create_chat] that returned. *)
Lemma create_chat_returns (a b : Z) (s s' : Store) :
  create_chat a b s = (Return tt, s') →
  (is_chat_between (Z.min a b) (Z.max a b) s).1 = Return false
  ∧ s' = mkStore (chats (is_chat_between (Z.min a b) (Z.max a b) s).2
                   ++ [mkChat (next_chat_id (chats (is_chat_between (Z.min a b) (Z.max a b) s).2))
                              (Z.min a b) (Z.max a b)])
                 [] (get_chat_id_by_users_ids_cache s).
Proof.
  rewrite create_chat_cases. cbn zeta.
  assert (get_chat_id_by_users_ids_cache (is_chat_between (Z.min a b) (Z.max a b) s).2
          = get_chat_id_by_users_ids_cache s) as Hid.
  { unfold is_chat_between. by destruct (lru_cache _ _ _). }
  destruct (is_chat_between _ _ s) as [[[|]|e] s1]; cbn [fst snd] in *; try done.
  intros [= <-]. by rewrite Hid.
Qed.

(** The state after a [delete_chat] that returned. *)
Lemma delete_chat_returns (p : option (list Z)) (c : option Z) (s s' : Store) :
  delete_chat p c s = (Return tt, s') →
  is_chat_between_cache s' = [] ∧ get_chat_id_by_users_ids_cache s' = [].
Proof.
  rewrite delete_chat_cases. destruct (truthy c) as [i|].
  - by intros [= <-].
  - cbn zeta. destruct (get_chat_id_by_users_ids_star p s) as [[i|e] s1]; cbn [fst snd];
      [by intros [= <-] | done].
Qed.

(** C2, as the code has it. A create_chat that returned has cleared the
    memo table of is_chat_between and left the memo table of
    get_chat_id_by_users_ids as it was; a delete_chat that returned has
    cleared both. *)
Theorem mutations_clear_caches (s s' : Store) :
  (∀ a b, create_chat a b s = (Return tt, s') →
     is_chat_between_cache s' = []
     ∧ get_chat_id_by_users_ids_cache s' = get_chat_id_by_users_ids_cache s)
  ∧ (∀ p c, delete_chat p c s = (Return tt, s') →
       is_chat_between_cache s' = [] ∧ get_chat_id_by_users_ids_cache s' = []).
Proof.
  split.
  - intros a b H. apply create_chat_returns in H as [_ ->]. done.
  - intros p c H. by apply delete_chat_returns in H.
Qed.

Lemma mutations_clear_caches_witness :
  let s := after (call_get_chat_id_by_users_ids 1 2) (after (call_create_chat 1 2) empty_store) in
  (is_chat_between_cache (create_chat 3 1 s).2 = []
   ∧ get_chat_id_by_users_ids_cache (create_chat 3 1 s).2 = [((1, 2), 1)])
  ∧ (is_chat_between_cache (delete_chat (Some [2; 1]) None s).2 = []
     ∧ get_chat_id_by_users_ids_cache (delete_chat (Some [2; 1]) None s).2 = []).
Proof.
  intros s. split.
  - apply (proj1 (mutations_clear_caches s (create_chat 3 1 s).2) 3 1). reflexivity.
  - apply (proj2 (mutations_clear_caches s (delete_chat (Some [2; 1]) None s).2)
             (Some [2; 1]) None).
    reflexivity.
Defined.

(** C2 as stated fails: a create_chat that returned can leave an entry in
    the memo table of get_chat_id_by_users_ids. *)
Lemma create_chat_keeps_id_cache :
  ¬ (∀ s a b s', reachable s → create_chat a b s = (Return tt, s') →
       is_chat_between_cache s' = [] ∧ get_chat_id_by_users_ids_cache s' = []).
Proof.
  intros H.
  specialize (H (after (call_get_chat_id_by_users_ids 1 2)
                   (after (call_create_chat 1 2) empty_store)) 1 3 _
                (reachable_after _ _ (reachable_after _ _ reachable_empty)) eq_refl).
  destruct H as [_ H]. vm_compute in H. discriminate H.
Qed.


Lemma is_chat_between_body_comm (a b : Z) (t : list Chat) :
  is_chat_between_body a b t = is_chat_between_body b a t.
Proof. unfold is_chat_between_body. by rewrite (sorted_comm a b). Qed.

Lemma get_chat_id_by_users_ids_body_comm (a b : Z) (t : list Chat) :
  get_chat_id_by_users_ids_body a b t = get_chat_id_by_users_ids_body b a t.
Proof. unfold get_chat_id_by_users_ids_body. by rewrite (sorted_comm a b). Qed.

Lemma is_chat_between_body_min_max (a b : Z) (t : list Chat) :
  is_chat_between_body (Z.min a b) (Z.max a b) t = is_chat_between_body a b t.
Proof. unfold is_chat_between_body. by rewrite sorted_sorted. Qed.

Lemma is_chat_between_body_snoc (a b n : Z) (t : list Chat) :
  is_chat_between_body a b (t ++ [mkChat n (Z.min a b) (Z.max a b)]) = Return true.
Proof.
  unfold is_chat_between_body, sorted. rewrite where_pair_snoc. cbn [user1_id user2_id].
  rewrite decide_True by done. f_equal. apply bool_decide_eq_true.
  by destruct (where_pair _ _ t).
Qed.

(** On a coherent state without a row for the pair, [create_chat]
    returns and appends the sorted pair under the next key. *)
Lemma create_chat_fresh (a b : Z) (s : Store) :
  coherent s → where_pair (Z.min a b) (Z.max a b) (chats s) = [] →
  ∃ s1, create_chat a b s = (Return tt, s1)
        ∧ chats s1 = chats s ++ [mkChat (next_chat_id (chats s)) (Z.min a b) (Z.max a b)]
        ∧ coherent s1.
Proof.
  intros Hs Hnone.
  pose proof (create_chat_coherent a b s Hs) as Hc.
  rewrite create_chat_cases in Hc |- *. cbn zeta in *.
  destruct (is_chat_between_coherent (Z.min a b) (Z.max a b) s Hs) as (Hr & Ht & _ & _).
  rewrite is_chat_between_body_min_max in Hr.
  apply is_chat_between_body_false in Hnone. rewrite Hnone in Hr.
  destruct (is_chat_between _ _ s) as [r s0]. cbn [fst snd] in *. subst r.
  rewrite Ht in *. eexists. split; [reflexivity|]. split; [reflexivity|]. exact Hc.
Qed.

(** On a coherent state with a row for the pair, [create_chat] raises
    and the table stays as it is. *)
Lemma create_chat_existing (a b : Z) (s : Store) :
  coherent s → is_chat_between_body a b (chats s) = Return true →
  ∃ s1, create_chat a b s = (Raise ChatAlreadyExistsError, s1)
        ∧ chats s1 = chats s ∧ coherent s1.
Proof.
  intros Hs Hsome. rewrite create_chat_cases. cbn zeta.
  destruct (is_chat_between_coherent (Z.min a b) (Z.max a b) s Hs) as (Hr & Ht & _ & Hc).
  rewrite is_chat_between_body_min_max, Hsome in Hr.
  destruct (is_chat_between _ _ s) as [r s0]. cbn [fst snd] in *. subst r.
  eexists. split; [reflexivity|]. by split.
Qed.

(** C3. Where the process can be and no row joins a and b (a ≠ b),
    create_chat(a,b) returns and appends the row of the ascending pair;
    create_chat(b,a) then raises ChatAlreadyExistsError and leaves the
    table as it is; is_chat_between(a,b) and then is_chat_between(b,a)
    both return true. *)
Theorem create_chat_then_reversed (s : Store) (a b : Z) :
  reachable s → a ≠ b → where_pair (Z.min a b) (Z.max a b) (chats s) = [] →
  ∃ s1 s2,
    create_chat a b s = (Return tt, s1)
    ∧ chats s1 = chats s ++ [mkChat (next_chat_id (chats s)) (Z.min a b) (Z.max a b)]
    ∧ create_chat b a s1 = (Raise ChatAlreadyExistsError, s2)
    ∧ chats s2 = chats s1
    ∧ (is_chat_between a b s2).1 = Return true
    ∧ (is_chat_between b a (is_chat_between a b s2).2).1 = Return true.
Proof.
  intros Hs%reachable_coherent _ Hnone.
  destruct (create_chat_fresh a b s Hs Hnone) as (s1 & H1 & Ht1 & Hc1).
  assert (is_chat_between_body a b (chats s1) = Return true) as Hab.
  { rewrite Ht1. apply is_chat_between_body_snoc. }
  destruct (create_chat_existing b a s1 Hc1) as (s2 & H2 & Ht2 & Hc2).
  { by rewrite <- is_chat_between_body_comm. }
  exists s1, s2. repeat split; try done.
  - destruct (is_chat_between_coherent a b s2 Hc2) as (-> & _).
    by rewrite Ht2.
  - destruct (is_chat_between_coherent a b s2 Hc2) as (_ & Ht3 & _ & Hc3).
    destruct (is_chat_between_coherent b a _ Hc3) as (-> & _).
    by rewrite Ht3, Ht2, <- is_chat_between_body_comm.
Qed.

Lemma create_chat_then_reversed_witness :
  ∃ s1 s2,
    create_chat 2 1 empty_store = (Return tt, s1)
    ∧ chats s1 = [mkChat 1 1 2]
    ∧ create_chat 1 2 s1 = (Raise ChatAlreadyExistsError, s2)
    ∧ chats s2 = chats s1
    ∧ (is_chat_between 2 1 s2).1 = Return true
    ∧ (is_chat_between 1 2 (is_chat_between 2 1 s2).2).1 = Return true.
Proof.
  apply (create_chat_then_reversed empty_store 2 1).
  - apply reachable_empty.
  - lia.
  - reflexivity.
Defined.



Lemma where_pair_filter (x y : Z) (P : Chat → Prop) `{!∀ r, Decision (P r)}
    (t : list Chat) :
  where_pair x y (filter P t) = filter P (where_pair x y t).
Proof.
  unfold where_pair. induction t as [|r t IH]; [done|].
  rewrite !filter_cons. repeat case_decide; rewrite ?filter_cons;
    repeat case_decide; try done; by rewrite IH.
Qed.

Lemma next_chat_id_pos (t : list Chat) : 0 < next_chat_id t.
Proof.
  unfold next_chat_id. assert (0 ≤ foldr Z.max 0 (chat_id <$> t)); [|lia].
  induction t; cbn; lia.
Qed.

(** Once the id found for a pair is deleted, no row joins the pair. *)
Lemma where_pair_deleted (a b i : Z) (t : list Chat) :
  get_chat_id_by_users_ids_body a b t = Return i →
  where_pair (Z.min a b) (Z.max a b) (filter (λ r, chat_id r ≠ i) t) = [].
Proof.
  unfold get_chat_id_by_users_ids_body, sorted. rewrite where_pair_filter.
  destruct (where_pair _ _ t) as [|r [|r' l]]; cbn [fmap list_fmap scalar]; try done.
  case_decide; [done|]. intros [= <-].
  rewrite filter_cons, decide_False; [done | tauto].
Qed.

Lemma get_chat_id_by_users_ids_body_none (a b : Z) (t : list Chat) :
  where_pair (Z.min a b) (Z.max a b) t = [] →
  get_chat_id_by_users_ids_body a b t = Raise ChatNotFoundByIndexesError.
Proof. unfold get_chat_id_by_users_ids_body, sorted. by intros ->. Qed.

(** A [delete_chat] by pair that returned, on a coherent state, leaves no
    row for the pair and two empty memo tables. *)
Lemma delete_chat_pair_returns (a b : Z) (s s' : Store) :
  coherent s → delete_chat (Some [a; b]) None s = (Return tt, s') →
  where_pair (Z.min a b) (Z.max a b) (chats s') = [] ∧ coherent s'.
Proof.
  intros Hs. pose proof (delete_chat_coherent (Some [a; b]) None s Hs) as Hc.
  rewrite delete_chat_cases in Hc |- *. cbn [truthy get_chat_id_by_users_ids_star] in *.
  cbn zeta in *.
  destruct (get_chat_id_by_users_ids_coherent a b s Hs) as (Hr & Ht & _).
  destruct (get_chat_id_by_users_ids a b s) as [[i|e] s0]; cbn [fst snd] in *; [|done].
  intros [= <-]. split; [|done]. cbn [chats]. rewrite Ht. by apply where_pair_deleted.
Qed.



Lemma filter_chat_id_absent (c : Z) (t : list Chat) :
  Forall (λ r, chat_id r ≠ c) t → filter (λ r, chat_id r ≠ c) t = t.
Proof.
  induction 1 as [|r t Hr _ IH]; [done|].
  by rewrite filter_cons, decide_True, IH.
Qed.

(** C10, as the code has it. delete_chat with an explicit chat id that is
    not zero and is the key of no row returns without raising, whatever
    the pair argument is, leaves the table as it was and clears both memo
    tables. *)
Theorem delete_chat_unknown_chat_id (s : Store) (p : option (list Z)) (c : Z) :
  c ≠ 0 → Forall (λ r, chat_id r ≠ c) (chats s) →
  delete_chat p (Some c) s = (Return tt, mkStore (chats s) [] []).
Proof.
  intros Hc Habsent. rewrite delete_chat_cases. cbn [truthy].
  rewrite decide_False by done. by rewrite filter_chat_id_absent.
Qed.

Lemma delete_chat_unknown_chat_id_witness :
  let s := after (call_is_chat_between 1 2) (after (call_create_chat 1 2) empty_store) in
  delete_chat None (Some 7) s = (Return tt, mkStore (chats s) [] []).
Proof.
  intros s. apply (delete_chat_unknown_chat_id s None 7); [lia|].
  subst s. vm_compute. repeat constructor. discriminate.
Defined.

(** C10 as stated fails at the chat id 0, which is the key of no row: the
    call falls through to the pair, and without a pair it raises
    TypeError. *)
Lemma delete_chat_zero_chat_id :
  Forall (λ r, chat_id r ≠ 0) (chats empty_store)
  ∧ delete_chat None (Some 0) empty_store = (Raise TypeError, empty_store).
Proof. split; [constructor | reflexivity]. Qed.

End ChatsFacts.


(** * Facts about tokens and the authentication views *)

Section AuthFacts.
Import Auth.
Variable env : Env.

Lemma loads_dumps (key : string) (expires_in now later : Z) (payload : gmap string Z) :
  0 ≤ now + expires_in → later ≤ now + expires_in →
  loads env key later (dumps env key expires_in now payload) = Return payload.
Proof.
  intros Hpos Hlive. unfold loads, dumps. cbn [exp].
  rewrite decide_True by done. rewrite decide_False by lia. by rewrite decide_False by lia.
Qed.

Lemma loads_dumps_expired (key : string) (expires_in now later : Z)
    (payload : gmap string Z) :
  0 ≤ now + expires_in → now + expires_in < later →
  loads env key later (dumps env key expires_in now payload) = Raise SignatureExpired.
Proof.
  intros Hpos Hlate. unfold loads, dumps. cbn [exp].
  rewrite decide_True by done. rewrite decide_False by lia. by rewrite decide_True by lia.
Qed.

Lemma loads_bad_signature (key : string) (now : Z) (header : JWSHeader)
    (payload : gmap string Z) (sig : Z) :
  sig ≠ signature env key header payload →
  loads env key now (JWS header payload sig) = Raise BadSignature.
Proof. intros H. unfold loads. by rewrite decide_False. Qed.

(** Both verifiers are one computation on the result of [loads]. *)
Lemma get_user_by_token_loads (k : token_class) (now : Z) (token : Token) (st : App) :
  get_user_by_token env k now token st =
    match loads env (SECRET_KEY env) now token with
    | Return payload =>
        match getitem payload "user_id" with
        | Return id => get_user_by_id id st
        | Raise e => (Raise e, st)
        end
    | Raise e => (Raise e, st)
    end.
Proof.
  destruct k; cbn [get_user_by_token];
    unfold get_user_by_reset_password_token, get_user_by_authentication_token,
      bind, lift_outcome;
    destruct (loads _ _ _ _) as [payload|e]; try done;
    by destruct (getitem payload "user_id").
Qed.

(** Both issuers are one call of [dumps]. *)
Lemma get_token_dumps (k : token_class) (u : User) (w : option Z) (now : Z) :
  get_token env k u w now =
    dumps env (SECRET_KEY env) (or_default w (default_expires_in env k)) now
          {[ "user_id" := user_id u ]}.
Proof. by destruct k. Qed.

Lemma get_user_by_id_found (u : User) (st : App) :
  query_get (user_id u) (users st) = Some u →
  get_user_by_id (user_id u) st = (Return u, st).
Proof. intros H. unfold get_user_by_id. by rewrite H. Qed.

Lemma getitem_user_id (id : Z) :
  getitem ({[ "user_id" := id ]} : gmap string Z) "user_id" = Return id.
Proof. unfold getitem. by rewrite lookup_singleton_eq. Qed.

(** A token of class [k], verified as class [k'] while it is live. *)
Lemma get_user_by_token_live (k k' : token_class) (u : User) (w : option Z)
    (now later : Z) (st : App) :
  query_get (user_id u) (users st) = Some u →
  0 ≤ now + or_default w (default_expires_in env k) →
  later ≤ now + or_default w (default_expires_in env k) →
  get_user_by_token env k' later (get_token env k u w now) st = (Return u, st).
Proof.
  intros Hu Hpos Hlive.
  rewrite get_user_by_token_loads, get_token_dumps, loads_dumps by done.
  rewrite getitem_user_id. by apply get_user_by_id_found.
Qed.


(** C4, as the code has it. For a user that the table holds under its
    id, a clock that is not negative and an expiration window that is not
    negative (None or 0 stand for the configured default), and for either
    token class: the
    token verified at the moment it was issued returns the user; verified
    once the window has elapsed it raises SignatureExpired; a token that
    does not decode, or whose signature is not the one of its header and
    payload, raises BadSignature; and the two errors are distinct, a plain
    BadSignature not being an instance of SignatureExpired. *)
Theorem token_round_trip (k : token_class) (u : User) (w : option Z) (now : Z)
    (st : App) :
  query_get (user_id u) (users st) = Some u →
  0 ≤ now → 0 ≤ or_default w (default_expires_in env k) →
  let token := get_token env k u w now in
  get_user_by_token env k now token st = (Return u, st)
  ∧ (∀ later, now + or_default w (default_expires_in env k) < later →
       get_user_by_token env k later token st = (Raise SignatureExpired, st))
  ∧ (∀ later raw,
       get_user_by_token env k later (Malformed raw) st = (Raise BadSignature, st))
  ∧ (∀ later header payload sig,
       sig ≠ signature env (SECRET_KEY env) header payload →
       get_user_by_token env k later (JWS header payload sig) st
       = (Raise BadSignature, st))
  ∧ SignatureExpired ≠ BadSignature
  ∧ isinstance BadSignature SignatureExpired = false.
Proof.
  intros Hu Hnow Hw token. subst token. repeat split.
  - apply get_user_by_token_live; [done | lia | lia].
  - intros later Hlate.
    by rewrite get_user_by_token_loads, get_token_dumps, loads_dumps_expired by lia.
  - intros later raw. by rewrite get_user_by_token_loads.
  - intros later header payload sig Hsig.
    by rewrite get_user_by_token_loads, loads_bad_signature.
  - discriminate.
Qed.



(** C8, as the code has it. Without a current_user_id in the session the
    resolution returns and g.user is None; with the id of a user of the
    table it returns and g.user is that user; with an id that no user has
    it raises UserNotFoundByIndexError and g.user is not set. *)
Theorem recognize_logged_in_user_cases (st : App) :
  (session st !! "current_user_id" = None →
     recognize_logged_in_user st = (Return tt, set_g_user None st))
  ∧ (∀ id u, session st !! "current_user_id" = Some id →
       query_get id (users st) = Some u →
       recognize_logged_in_user st = (Return tt, set_g_user (Some u) st))
  ∧ (∀ id, session st !! "current_user_id" = Some id →
       query_get id (users st) = None →
       recognize_logged_in_user st = (Raise UserNotFoundByIndexError, st)).
Proof.
  unfold recognize_logged_in_user, bind, gets, get_user_by_id, modify, ret.
  repeat split.
  - by intros ->.
  - by intros id u -> ->.
  - by intros id -> ->.
Qed.

(** C8 as stated fails: a session that carries the id of no user makes
    the resolution raise. *)
Lemma recognize_logged_in_user_raises :
  ¬ (∀ st, ∃ st', recognize_logged_in_user st = (Return tt, st')).
Proof.
  intros H. destruct (H (mkApp [user1] {[ "current_user_id" := 7 ]} [] None)) as [st' Hst'].
  vm_compute in Hst'. discriminate Hst'.
Qed.

Lemma keeps_users_ret {A} (a : A) : keeps_users (ret a).
Proof. done. Qed.

Lemma keeps_users_raise {A} (e : exn) : keeps_users (raise e : M App A).
Proof. done. Qed.

Lemma keeps_users_gets {A} (f : App → A) : keeps_users (gets f).
Proof. done. Qed.

Lemma keeps_users_lift_outcome {A} (o : outcome A) : keeps_users (lift_outcome o).
Proof. done. Qed.

Lemma keeps_users_flash (message : string) : keeps_users (flash message).
Proof. done. Qed.

Lemma keeps_users_form_get (form : gmap string string) (key : string) :
  keeps_users (form_get form key).
Proof. unfold form_get. by destruct (form !! key). Qed.

Lemma keeps_users_bind {A B} (c : M App A) (k : A → M App B) :
  keeps_users c → (∀ a, keeps_users (k a)) → keeps_users (bind c k).
Proof.
  intros Hc Hk st. unfold bind. specialize (Hc st).
  destruct (c st) as [[a|e] st1]; cbn [snd] in *; [|done].
  by rewrite Hk.
Qed.

Lemma keeps_users_try_except {A} (c : M App A) (handler : exn → option (M App A)) :
  keeps_users c → (∀ e h, handler e = Some h → keeps_users h) →
  keeps_users (try_except c handler).
Proof.
  intros Hc Hh st. unfold try_except. specialize (Hc st).
  destruct (c st) as [[a|e] st1]; cbn [snd] in *; [done|].
  destruct (handler e) as [h|] eqn:He; [|done].
  by rewrite (Hh e h He).
Qed.

Lemma keeps_users_except_ValidationError (page : response) (e : exn)
    (h : M App (option response)) :
  except_ValidationError page e = Some h → keeps_users h.
Proof.
  destruct e; try done. intros [= <-].
  apply keeps_users_bind; [apply keeps_users_flash | intros; apply keeps_users_ret].
Qed.

Lemma keeps_users_unless_login_bind {A} (c : M App A) (k : A → M App response) :
  keeps_users c → (∀ a, keeps_users_unless_login (k a)) →
  keeps_users_unless_login (bind c k).
Proof.
  intros Hc Hk st. unfold bind. specialize (Hc st).
  destruct (c st) as [[a|e] st1]; cbn [fst snd] in *; [|by left].
  destruct (Hk a st1) as [H|H]; [left; by rewrite H | by right].
Qed.

Lemma keeps_users_unless_login_keeps (c : M App response) :
  keeps_users c → keeps_users_unless_login c.
Proof. intros Hc st. by left. Qed.

Create HintDb users.

#[local] Hint Resolve keeps_users_ret keeps_users_raise keeps_users_gets
  keeps_users_lift_outcome keeps_users_flash keeps_users_form_get : users.

Lemma RegisterView_post_keeps_users (form : gmap string string) (now : Z) :
  keeps_users_unless_login (RegisterView_post env form now).
Proof.
  unfold RegisterView_post.
  do 5 (apply keeps_users_unless_login_bind; [auto with users | intros ?]).
  apply keeps_users_unless_login_bind.
  { apply keeps_users_try_except; [|apply keeps_users_except_ValidationError].
    repeat (apply keeps_users_bind; [auto with users | intros ?]). auto with users. }
  intros [page|].
  { apply keeps_users_unless_login_keeps. auto with users. }
  apply keeps_users_unless_login_bind; [auto with users | intros by_email].
  case_bool_decide.
  { apply keeps_users_unless_login_keeps.
    apply keeps_users_bind; [auto with users | intros ?]. auto with users. }
  apply keeps_users_unless_login_bind; [auto with users | intros by_username].
  case_bool_decide.
  { apply keeps_users_unless_login_keeps.
    apply keeps_users_bind; [auto with users | intros ?]. auto with users. }
  intros st. by right.
Qed.

Lemma bind_form_get {A} (form : gmap string string) (key value : string)
    (k : string → M App A) (st : App) :
  form !! key = Some value → bind (form_get form key) k st = k value st.
Proof. intros H. unfold bind, form_get. by rewrite H. Qed.

(** The validation block of [RegisterView.post]: either every check
    passed, or one message was flashed and the register page is what the
    view returns. *)
Lemma register_validation_cases (e n p1 p2 : string) (page : response) (st : App) :
  let block :=
    try_except
      (lift_outcome (validate_email env e) ;;
       lift_outcome (validate_length n 3 25
         "Please, input name with a length between 3 and 25 chars") ;;
       lift_outcome (validate_equal_passwords p1 p2) ;;
       lift_outcome (validate_password_length env p2) ;;
       ret None)
      (except_ValidationError page) in
  (block st = (Return None, st) ∧ p1 = p2
   ∧ (min_password_length env ≤ String.length p2)%nat)
  ∨ (∃ message, block st = (Return (Some page), (flash message st).2)).
Proof.
  intros block. subst block.
  unfold try_except, bind, lift_outcome, validate_email.
  destruct (email_format env e); [|right; eexists; reflexivity].
  unfold validate_length. case_bool_decide; [|right; eexists; reflexivity].
  unfold validate_equal_passwords. case_decide; [|right; eexists; reflexivity].
  unfold validate_password_length. case_bool_decide; [|right; eexists; reflexivity].
  left. done.
Qed.

(** C7. Whatever the form holds, a registration that does not end in the
    redirect to the login page leaves the users table as it was; and with
    all five fields present, an email or a username that a row already
    has, two passwords that differ, or a password shorter than the
    minimum, each end in the register page again with the users table as
    it was. *)
Theorem register_rejections_leave_users (form : gmap string string) (now : Z)
    (st : App) :
  ((RegisterView_post env form now st).1 ≠ Return (redirect "authentication.login") →
     users (RegisterView_post env form now st).2 = users st)
  ∧ (∀ e u n p1 p2,
       form !! "email" = Some e → form !! "username" = Some u →
       form !! "name" = Some n →
       form !! "password1" = Some p1 → form !! "password2" = Some p2 →
       is_Some (filter_by_email e (users st))
       ∨ is_Some (filter_by_username u (users st))
       ∨ p1 ≠ p2
       ∨ (String.length p2 < min_password_length env)%nat →
       (RegisterView_post env form now st).1
         = Return (render_template "authentication/register.html" None)
       ∧ users (RegisterView_post env form now st).2 = users st).
Proof.
  assert ((RegisterView_post env form now st).1 ≠ Return (redirect "authentication.login") →
          users (RegisterView_post env form now st).2 = users st) as Hkeep.
  { intros Hne. by destruct (RegisterView_post_keeps_users form now st). }
  split; [exact Hkeep|].
  intros e u n p1 p2 He Hu Hn Hp1 Hp2 Hbad.
  assert ((RegisterView_post env form now st).1
          = Return (render_template "authentication/register.html" None)) as Hpage.
  { unfold RegisterView_post.
    rewrite (bind_form_get _ _ _ _ _ He), (bind_form_get _ _ _ _ _ Hu),
      (bind_form_get _ _ _ _ _ Hn), (bind_form_get _ _ _ _ _ Hp1),
      (bind_form_get _ _ _ _ _ Hp2).
    unfold bind at 1.
    destruct (register_validation_cases e n p1 p2
                (render_template "authentication/register.html" None) st)
      as [(-> & Heq & Hlen)|[message ->]]; [|done].
    unfold bind at 1. unfold gets at 1. cbn [fst snd].
    case_bool_decide as Hemail; [done|].
    unfold bind at 1. unfold gets at 1. cbn [fst snd].
    case_bool_decide as Huser; [done|].
    exfalso. destruct Hbad as [H|[H|[H|H]]]; [done | done | done | lia]. }
  split; [exact Hpage|]. apply Hkeep. rewrite Hpage. discriminate.
Qed.

Lemma ResetPasswordView_post_raises (token : Token) (form : gmap string string)
    (now : Z) (st : App) (p1 p2 : string) (e : exn) :
  form !! "password1" = Some p1 → form !! "password2" = Some p2 →
  loads env (SECRET_KEY env) now token = Raise e →
  ResetPasswordView_post env token form now st = (Raise e, st).
Proof.
  intros H1 H2 Hl. unfold ResetPasswordView_post.
  rewrite (bind_form_get _ _ _ _ _ H1), (bind_form_get _ _ _ _ _ H2).
  unfold get_user_by_reset_password_token, bind, lift_outcome. by rewrite Hl.
Qed.

Lemma ResetPasswordView_get_raises (token : Token) (now : Z) (st : App) (e : exn) :
  loads env (SECRET_KEY env) now token = Raise e →
  ResetPasswordView_get env token now st =
    if isinstance e SignatureExpired then
      (Return (render_template "authentication/reset_password_expired.html" None), st)
    else if isinstance e BadSignature then (Raise HTTPNotFound, st)
    else (Raise e, st).
Proof.
  intros Hl.
  unfold ResetPasswordView_get, try_except, get_user_by_reset_password_token,
    bind, lift_outcome.
  rewrite Hl. destruct (isinstance e SignatureExpired); [done|].
  by destruct (isinstance e BadSignature).
Qed.

(** C5. A reset-password token issued for one second and presented two
    seconds later, and a token that does not decode: the GET handler
    answers the first with the expired page and the second with
    abort(404), but the POST handler has no except clause, so
    SignatureExpired and BadSignature leave it uncaught and neither the
    expired page nor the not-found response is produced. *)
Theorem reset_password_post_token_errors_escape (u : User) (n : N) (p1 p2 : string)
    (f : gmap string string) (st : App) :
  let issued := Z.of_N n in
  let token := get_reset_password_token env u (Some 1) issued in
  let form := <["password1" := p1]> (<["password2" := p2]> f) in
  ResetPasswordView_get env token (issued + 2) st
    = (Return (render_template "authentication/reset_password_expired.html" None), st)
  ∧ ResetPasswordView_post env token form (issued + 2) st = (Raise SignatureExpired, st)
  ∧ ResetPasswordView_get env (Malformed "invalid_token") (issued + 2) st
    = (Raise HTTPNotFound, st)
  ∧ ResetPasswordView_post env (Malformed "invalid_token") form (issued + 2) st
    = (Raise BadSignature, st).
Proof.
  intros issued token form.
  assert (form !! "password1" = Some p1) as H1 by apply lookup_insert_eq.
  assert (form !! "password2" = Some p2) as H2.
  { subst form. rewrite lookup_insert_ne by done. apply lookup_insert_eq. }
  assert (loads env (SECRET_KEY env) (issued + 2) token = Raise SignatureExpired) as Hexp.
  { subst token. unfold get_reset_password_token. cbn [or_default].
    rewrite decide_False by done. apply loads_dumps_expired; subst issued; lia. }
  split; [|split; [|split]].
  - by rewrite (ResetPasswordView_get_raises token (issued + 2) st _ Hexp).
  - by apply (ResetPasswordView_post_raises token form (issued + 2) st p1 p2).
  - by rewrite (ResetPasswordView_get_raises (Malformed "invalid_token") (issued + 2) st
                  BadSignature).
  - by apply (ResetPasswordView_post_raises (Malformed "invalid_token") form
                (issued + 2) st p1 p2).
Qed.

End AuthFacts.

Section AuthWitnesses.
Import Auth.

Lemma token_round_trip_witness :
  let token := get_reset_password_token test_env user1 (Some 1) 100 in
  get_user_by_reset_password_token test_env 100 token test_app = (Return user1, test_app)
  ∧ (∀ later, 100 + 1 < later →
       get_user_by_reset_password_token test_env later token test_app
       = (Raise SignatureExpired, test_app))
  ∧ (∀ later raw,
       get_user_by_reset_password_token test_env later (Malformed raw) test_app
       = (Raise BadSignature, test_app))
  ∧ (∀ later header payload sig,
       sig ≠ test_signature "secret" header payload →
       get_user_by_reset_password_token test_env later (JWS header payload sig) test_app
       = (Raise BadSignature, test_app))
  ∧ SignatureExpired ≠ BadSignature
  ∧ isinstance BadSignature SignatureExpired = false.
Proof.
  apply (token_round_trip test_env reset_password user1 (Some 1) 100 test_app).
  - reflexivity.
  - lia.
  - apply Z.leb_le. reflexivity.
Defined.

(** C4 as stated fails: not every expiration window gives a token that
    verifies at the moment it is issued.  A reset-password token issued
    for a stored user with the window -1 raises SignatureExpired when it
    is verified at once. *)
Lemma token_round_trip_negative_window :
  ¬ (∀ (env : Env) (u : User) (w : option Z) (now : Z) (st : App),
       query_get (user_id u) (users st) = Some u → 0 ≤ now →
       get_user_by_reset_password_token env now
         (get_reset_password_token env u w now) st = (Return u, st)).
Proof.
  intros H.
  specialize (H test_env user1 (Some (-1)) 100 test_app eq_refl).
  assert (0 ≤ 100) as Hnow by lia. specialize (H Hnow).
  vm_compute in H. discriminate H.
Qed.



Lemma recognize_logged_in_user_cases_witness :
  recognize_logged_in_user test_app = (Return tt, set_g_user None test_app)
  ∧ (let st := mkApp [user1; user2] {[ "current_user_id" := 2 ]} [] None in
     recognize_logged_in_user st = (Return tt, set_g_user (Some user2) st))
  ∧ (let st := mkApp [user1] {[ "current_user_id" := 2 ]} [] None in
     recognize_logged_in_user st = (Raise UserNotFoundByIndexError, st)).
Proof.
  split; [|split].
  - apply (proj1 (recognize_logged_in_user_cases test_app)). reflexivity.
  - intros st. apply (proj1 (proj2 (recognize_logged_in_user_cases st)) 2 user2);
      reflexivity.
  - intros st. apply (proj2 (proj2 (recognize_logged_in_user_cases st)) 2); reflexivity.
Defined.

Lemma register_rejections_leave_users_witness :
  let form : gmap string string :=
    {[ "email" := "user1@gmail.com"; "username" := "test_user"; "name" := "Ann";
       "password1" := "Who am I"; "password2" := "Who am I" ]} in
  (RegisterView_post test_env form 5 test_app).1
    = Return (render_template "authentication/register.html" None)
  ∧ users (RegisterView_post test_env form 5 test_app).2 = users test_app.
Proof.
  intros form.
  apply (proj2 (register_rejections_leave_users test_env form 5 test_app)
           "user1@gmail.com" "test_user" "Ann" "Who am I" "Who am I");
    try reflexivity.
  left. vm_compute. eauto.
Defined.

End AuthWitnesses.

(** * More facts about the chats table *)

Section ChatsShape.
Import Chats.

Lemma chat_id_lt_next (t : list Chat) (r : Chat) : r ∈ t → chat_id r < next_chat_id t.
Proof.
  unfold next_chat_id. induction t as [|x t IH]; [by intros ?%elem_of_nil|].
  intros [->|H]%elem_of_cons; cbn; [lia|]. specialize (IH H). lia.
Qed.

Lemma where_pair_nil_iff (x y : Z) (t : list Chat) :
  where_pair x y t = [] ↔ (x, y) ∉ pair_of <$> t.
Proof.
  unfold where_pair. split.
  - intros Hnil (r & Hr & Hin)%list_elem_of_fmap.
    assert (r ∈ filter (λ r, user1_id r = x ∧ user2_id r = y) t) as H.
    { apply list_elem_of_filter. injection Hr as -> ->. done. }
    rewrite Hnil in H. by apply elem_of_nil in H.
  - intros Hnot. destruct (filter _ t) as [|r l] eqn:Hf; [done|]. exfalso.
    assert (r ∈ filter (λ r, user1_id r = x ∧ user2_id r = y) t) as H
      by (rewrite Hf; left).
    apply list_elem_of_filter in H as [[<- <-] Hin]. apply Hnot.
    by apply (list_elem_of_fmap_2 pair_of).
Qed.

Lemma NoDup_fmap_filter {A B} (f : A → B) (P : A → Prop) `{!∀ x, Decision (P x)}
    (l : list A) :
  NoDup (f <$> l) → NoDup (f <$> filter P l).
Proof.
  induction l as [|x l IH]; [done|]. rewrite fmap_cons. intros [Hx Hl]%NoDup_cons.
  rewrite filter_cons. case_decide; [|by apply IH].
  rewrite fmap_cons. apply NoDup_cons. split; [|by apply IH].
  intros (y & Hy & Hin)%list_elem_of_fmap. apply list_elem_of_filter in Hin as [_ Hin].
  apply Hx. rewrite Hy. by apply list_elem_of_fmap_2.
Qed.

Lemma table_ok_filter (P : Chat → Prop) `{!∀ r, Decision (P r)} (t : list Chat) :
  table_ok t → table_ok (filter P t).
Proof.
  intros (Hrows & Hids & Hpairs). repeat split.
  - rewrite Forall_forall in Hrows |- *. intros r [_ Hr]%list_elem_of_filter. by apply Hrows.
  - by apply NoDup_fmap_filter.
  - by apply NoDup_fmap_filter.
Qed.

Lemma table_ok_snoc (a b : Z) (t : list Chat) :
  table_ok t → where_pair (Z.min a b) (Z.max a b) t = [] →
  table_ok (t ++ [mkChat (next_chat_id t) (Z.min a b) (Z.max a b)]).
Proof.
  intros (Hrows & Hids & Hpairs) Hnone. repeat split.
  - apply Forall_app. split; [done|]. apply Forall_singleton. cbn.
    pose proof (next_chat_id_pos t). lia.
  - rewrite fmap_app. apply NoDup_app. repeat split; [done| |apply NoDup_singleton].
    intros i (r & -> & Hr)%list_elem_of_fmap Hi. cbn in Hi.
    apply list_elem_of_singleton in Hi. apply chat_id_lt_next in Hr. lia.
  - rewrite fmap_app. apply NoDup_app. repeat split; [done| |apply NoDup_singleton].
    intros p Hp Hi. cbn in Hi. apply list_elem_of_singleton in Hi. subst p.
    by apply where_pair_nil_iff in Hnone.
Qed.

(** The table invariant together with coherence, along any sequence of
    calls. *)
Lemma after_table_ok (c : call) (s : Store) :
  coherent s → table_ok (chats s) → table_ok (chats (after c s)).
Proof.
  intros Hs Ht. destruct c as [a b|p c|a b|a b]; cbn [after].
  - rewrite create_chat_cases. cbn zeta.
    destruct (is_chat_between_coherent (Z.min a b) (Z.max a b) s Hs) as (Hr & Hch & _).
    rewrite is_chat_between_body_min_max in Hr.
    destruct (is_chat_between _ _ s) as [r s1]. cbn [fst snd] in *. subst r.
    destruct (is_chat_between_body a b (chats s)) as [[|]|e] eqn:Hb; cbn [snd chats];
      rewrite ?Hch; try done.
    apply table_ok_snoc; [done|]. by apply is_chat_between_body_false.
  - rewrite delete_chat_cases. destruct (truthy c) as [i|]; cbn [snd chats].
    { by apply table_ok_filter. }
    cbn zeta.
    assert (chats (get_chat_id_by_users_ids_star p s).2 = chats s) as Hch.
    { destruct p as [[|x [|y [|]]]|]; try done.
      by destruct (get_chat_id_by_users_ids_coherent x y s Hs) as (_ & ? & _). }
    destruct (get_chat_id_by_users_ids_star p s) as [[i|e] s1]; cbn [fst snd chats] in *;
      rewrite Hch; [by apply table_ok_filter | done].
  - by destruct (is_chat_between_coherent a b s Hs) as (_ & -> & _).
  - by destruct (get_chat_id_by_users_ids_coherent a b s Hs) as (_ & -> & _).
Qed.

Lemma after_coherent (c : call) (s : Store) : coherent s → coherent (after c s).
Proof.
  intros Hs. destruct c; cbn [after].
  - by apply create_chat_coherent.
  - by apply delete_chat_coherent.
  - by apply is_chat_between_coherent.
  - by apply get_chat_id_by_users_ids_coherent.
Qed.

Lemma reachable_both (s : Store) : reachable s → coherent s ∧ table_ok (chats s).
Proof.
  induction 1 as [|c s _ [IHc IHt]].
  - split; [split; apply Forall_nil_2|]. repeat split; [constructor|constructor..].
  - split; [by apply after_coherent | by apply after_table_ok].
Qed.

(** X1. In every state the process can be in, each row of the chats table
    holds an ascending pair under a positive key, no two rows have the
    same key and no two rows join the same pair. *)
Theorem reachable_table_ok (s : Store) : reachable s → table_ok (chats s).
Proof. intros Hs. by destruct (reachable_both s Hs). Qed.

Lemma reachable_table_ok_witness :
  table_ok (chats (after (call_create_chat 3 1)
                     (after (call_delete_chat (Some [2; 1]) None)
                        (after (call_create_chat 2 1) empty_store)))).
Proof.
  apply reachable_table_ok. do 3 apply reachable_after. apply reachable_empty.
Defined.


Lemma where_pair_elem (x y : Z) (t : list Chat) (r : Chat) :
  r ∈ where_pair x y t ↔ r ∈ t ∧ r = mkChat (chat_id r) x y.
Proof.
  unfold where_pair. rewrite list_elem_of_filter. destruct r as [i u v]. cbn.
  split.
  - intros [[-> ->] H]. done.
  - intros [H [= -> ->]]. done.
Qed.

(** With no pair twice in the table, a pair selects no row or one. *)
Lemma where_pair_cases (x y : Z) (t : list Chat) :
  table_ok t →
  where_pair x y t = []
  ∨ ∃ i, where_pair x y t = [mkChat i x y] ∧ 0 < i ∧ mkChat i x y ∈ t.
Proof.
  intros (Hrows & _ & Hpairs).
  pose proof (NoDup_fmap_filter pair_of (λ r, user1_id r = x ∧ user2_id r = y) t Hpairs)
    as Hnd. fold (where_pair x y t) in Hnd.
  destruct (where_pair x y t) as [|r [|r' l]] eqn:Hw; [by left| |].
  - right. assert (r ∈ where_pair x y t) as Hr by (rewrite Hw; left).
    apply where_pair_elem in Hr as [Hin Heq]. exists (chat_id r). rewrite <- Heq.
    repeat split; [|done]. rewrite Forall_forall in Hrows. by apply Hrows.
  - exfalso.
    assert (r ∈ where_pair x y t) as Hr by (rewrite Hw; left).
    assert (r' ∈ where_pair x y t) as Hr' by (rewrite Hw; right; left).
    apply where_pair_elem in Hr as [_ Hr]. apply where_pair_elem in Hr' as [_ Hr'].
    rewrite !fmap_cons in Hnd. apply NoDup_cons in Hnd as [Hnd _]. apply Hnd.
    rewrite Hr, Hr'. left.
Qed.

Lemma is_chat_between_body_true (a b : Z) (t : list Chat) :
  where_pair (Z.min a b) (Z.max a b) t ≠ [] → is_chat_between_body a b t = Return true.
Proof.
  intros H. unfold is_chat_between_body, sorted. f_equal. by apply bool_decide_eq_true.
Qed.

Lemma get_chat_id_by_users_ids_body_one (a b i : Z) (t : list Chat) :
  where_pair (Z.min a b) (Z.max a b) t = [mkChat i (Z.min a b) (Z.max a b)] → 0 < i →
  get_chat_id_by_users_ids_body a b t = Return i.
Proof.
  intros H Hi. unfold get_chat_id_by_users_ids_body, sorted. rewrite H. cbn.
  by rewrite decide_False by lia.
Qed.

(** X2. Where the process can be, the two memoized queries tell the same
    story: is_chat_between never raises; when it returns true,
    get_chat_id_by_users_ids returns the key of the row that holds the
    ascending pair; when it returns false, get_chat_id_by_users_ids raises
    ChatNotFoundByIndexesError. *)
Theorem queries_agree (s : Store) (a b : Z) :
  reachable s →
  match (is_chat_between a b s).1 with
  | Return true =>
      ∃ i, (get_chat_id_by_users_ids a b s).1 = Return i
           ∧ mkChat i (Z.min a b) (Z.max a b) ∈ chats s
  | Return false =>
      (get_chat_id_by_users_ids a b s).1 = Raise ChatNotFoundByIndexesError
  | Raise _ => False
  end.
Proof.
  intros [Hc Ht]%reachable_both.
  destruct (is_chat_between_coherent a b s Hc) as (-> & _).
  destruct (get_chat_id_by_users_ids_coherent a b s Hc) as (-> & _).
  destruct (where_pair_cases (Z.min a b) (Z.max a b) (chats s) Ht)
    as [Hnone|(i & Hone & Hi & Hin)].
  - rewrite (proj2 (is_chat_between_body_false a b _) Hnone).
    by apply get_chat_id_by_users_ids_body_none.
  - rewrite is_chat_between_body_true by (by rewrite Hone).
    exists i. split; [|done]. by apply get_chat_id_by_users_ids_body_one.
Qed.

Lemma queries_agree_witness :
  let s := after (call_create_chat 5 4) (after (call_is_chat_between 4 5) empty_store) in
  match (is_chat_between 5 4 s).1 with
  | Return true =>
      ∃ i, (get_chat_id_by_users_ids 5 4 s).1 = Return i ∧ mkChat i 4 5 ∈ chats s
  | Return false =>
      (get_chat_id_by_users_ids 5 4 s).1 = Raise ChatNotFoundByIndexesError
  | Raise _ => False
  end.
Proof.
  intros s. apply (queries_agree s 5 4).
  subst s. do 2 apply reachable_after. apply reachable_empty.
Defined.

(** X3. Where the process can be, either query gives the same result for
    (a,b) and for (b,a), although the two calls are memoized under
    different keys. *)
Theorem queries_symmetric (s : Store) (a b : Z) :
  reachable s →
  (is_chat_between a b s).1 = (is_chat_between b a s).1
  ∧ (get_chat_id_by_users_ids a b s).1 = (get_chat_id_by_users_ids b a s).1.
Proof.
  intros Hc%reachable_coherent. split.
  - destruct (is_chat_between_coherent a b s Hc) as (-> & _).
    destruct (is_chat_between_coherent b a s Hc) as (-> & _).
    apply is_chat_between_body_comm.
  - destruct (get_chat_id_by_users_ids_coherent a b s Hc) as (-> & _).
    destruct (get_chat_id_by_users_ids_coherent b a s Hc) as (-> & _).
    apply get_chat_id_by_users_ids_body_comm.
Qed.

Lemma queries_symmetric_witness :
  let s := after (call_get_chat_id_by_users_ids 1 2) (after (call_create_chat 2 1) empty_store) in
  (is_chat_between 1 2 s).1 = (is_chat_between 2 1 s).1
  ∧ (get_chat_id_by_users_ids 1 2 s).1 = (get_chat_id_by_users_ids 2 1 s).1.
Proof.
  intros s. apply (queries_symmetric s 1 2).
  subst s. do 2 apply reachable_after. apply reachable_empty.
Defined.

(** X4. Where the process can be, after a create_chat(a,b) that returned,
    get_chat_id_by_users_ids returns the key of the new row, which is
    positive, for the pair in either order. *)
Theorem create_chat_then_get_chat_id (s s1 : Store) (a b : Z) :
  reachable s → create_chat a b s = (Return tt, s1) →
  (get_chat_id_by_users_ids a b s1).1 = Return (next_chat_id (chats s))
  ∧ (get_chat_id_by_users_ids b a s1).1 = Return (next_chat_id (chats s))
  ∧ 0 < next_chat_id (chats s).
Proof.
  intros Hs Hcreate. pose proof (reachable_coherent s Hs) as Hc.
  assert (where_pair (Z.min a b) (Z.max a b) (chats s) = []) as Hnone.
  { apply create_chat_returns in Hcreate as [Hq _].
    destruct (is_chat_between_coherent (Z.min a b) (Z.max a b) s Hc) as (Hr & _).
    rewrite Hq, is_chat_between_body_min_max in Hr. by apply is_chat_between_body_false. }
  destruct (create_chat_fresh a b s Hc Hnone) as (s1' & H1 & Ht1 & Hc1).
  rewrite Hcreate in H1. injection H1 as <-.
  pose proof (next_chat_id_pos (chats s)) as Hpos.
  assert (get_chat_id_by_users_ids_body a b (chats s1) = Return (next_chat_id (chats s)))
    as Hbody.
  { apply get_chat_id_by_users_ids_body_one; [|done].
    rewrite Ht1, where_pair_snoc, Hnone. cbn [user1_id user2_id].
    by rewrite decide_True. }
  repeat split; [| |done].
  - by destruct (get_chat_id_by_users_ids_coherent a b s1 Hc1) as (-> & _).
  - destruct (get_chat_id_by_users_ids_coherent b a s1 Hc1) as (-> & _).
    by rewrite <- get_chat_id_by_users_ids_body_comm.
Qed.

Lemma create_chat_then_get_chat_id_witness :
  let s := after (call_create_chat 1 2) empty_store in
  (get_chat_id_by_users_ids 2 3 (create_chat 2 3 s).2).1 = Return 2
  ∧ (get_chat_id_by_users_ids 3 2 (create_chat 2 3 s).2).1 = Return 2
  ∧ 0 < 2.
Proof.
  intros s. apply (create_chat_then_get_chat_id s (create_chat 2 3 s).2 2 3).
  - subst s. apply reachable_after, reachable_empty.
  - reflexivity.
Defined.


(** X5. Where the process can be and a row joins a and b, create_chat
    raises ChatAlreadyExistsError and leaves the table and the memo table
    of get_chat_id_by_users_ids as they were. *)
Theorem create_chat_rejects_existing (s : Store) (a b : Z) :
  reachable s → where_pair (Z.min a b) (Z.max a b) (chats s) ≠ [] →
  ∃ s', create_chat a b s = (Raise ChatAlreadyExistsError, s')
        ∧ chats s' = chats s
        ∧ get_chat_id_by_users_ids_cache s' = get_chat_id_by_users_ids_cache s.
Proof.
  intros Hc%reachable_coherent Hsome. rewrite create_chat_cases. cbn zeta.
  destruct (is_chat_between_coherent (Z.min a b) (Z.max a b) s Hc) as (Hr & Ht & Hi & _).
  rewrite is_chat_between_body_min_max, is_chat_between_body_true in Hr by done.
  destruct (is_chat_between _ _ s) as [r s0]. cbn [fst snd] in *. subst r. eauto.
Qed.

Lemma create_chat_rejects_existing_witness :
  let s := after (call_create_chat 7 3) empty_store in
  ∃ s', create_chat 3 7 s = (Raise ChatAlreadyExistsError, s')
        ∧ chats s' = chats s
        ∧ get_chat_id_by_users_ids_cache s' = get_chat_id_by_users_ids_cache s.
Proof.
  intros s. apply (create_chat_rejects_existing s 3 7).
  - subst s. apply reachable_after, reachable_empty.
  - vm_compute. discriminate.
Defined.

(** X6. In any state whatever, the chats table changes only through a
    create_chat or a delete_chat that returned: the two queries leave it
    as it is, a create_chat that raises raises ChatAlreadyExistsError and
    leaves it as it is, and so does a delete_chat that raises. *)
Theorem table_changes_only_on_success (s : Store) :
  (∀ a b, chats (is_chat_between a b s).2 = chats s)
  ∧ (∀ a b, chats (get_chat_id_by_users_ids a b s).2 = chats s)
  ∧ (∀ a b e, (create_chat a b s).1 = Raise e →
       e = ChatAlreadyExistsError ∧ chats (create_chat a b s).2 = chats s)
  ∧ (∀ p c e, (delete_chat p c s).1 = Raise e → chats (delete_chat p c s).2 = chats s).
Proof.
  assert (∀ a b, chats (is_chat_between a b s).2 = chats s) as Hread1.
  { intros a b. unfold is_chat_between. by destruct (lru_cache _ _ _). }
  assert (∀ a b, chats (get_chat_id_by_users_ids a b s).2 = chats s) as Hread2.
  { intros a b. unfold get_chat_id_by_users_ids. by destruct (lru_cache _ _ _). }
  split; [done|]. split; [done|]. split.
  - intros a b e. rewrite create_chat_cases. cbn zeta.
    specialize (Hread1 (Z.min a b) (Z.max a b)).
    assert (∀ e', (is_chat_between (Z.min a b) (Z.max a b) s).1 ≠ Raise e') as Hne.
    { intros e'. unfold is_chat_between, lru_cache.
      destruct (cache_get _ _); [done|]. unfold is_chat_between_body.
      by destruct (sorted _ _). }
    destruct (is_chat_between _ _ s) as [[[|]|e'] s1]; cbn [fst snd] in *; try done.
    + by intros [= <-].
    + by destruct (Hne e').
  - intros p c e. rewrite delete_chat_cases. destruct (truthy c); [done|]. cbn zeta.
    assert (chats (get_chat_id_by_users_ids_star p s).2 = chats s) as Hch.
    { destruct p as [[|x [|y [|]]]|]; try done. apply Hread2. }
    by destruct (get_chat_id_by_users_ids_star p s) as [[i|e'] s1].
Qed.

Lemma table_changes_only_on_success_witness :
  let s := after (call_create_chat 1 2) empty_store in
  ChatAlreadyExistsError = ChatAlreadyExistsError
  ∧ chats (create_chat 2 1 s).2 = chats s.
Proof.
  intros s.
  apply (proj1 (proj2 (proj2 (table_changes_only_on_success s))) 2 1
           ChatAlreadyExistsError).
  reflexivity.
Defined.

(** X7. delete_chat called without a chat id, or with the chat id 0, and
    without a list of exactly two user ids raises TypeError and leaves the
    table and both memo tables as they were. *)
Theorem delete_chat_without_pair (s : Store) (p : option (list Z)) (c : option Z) :
  c = None ∨ c = Some 0 →
  (∀ a b, p ≠ Some [a; b]) →
  delete_chat p c s = (Raise TypeError, s).
Proof.
  intros Hc Hp. rewrite delete_chat_cases.
  assert (truthy c = None) as -> by (by destruct Hc as [-> | ->]).
  cbn zeta. destruct p as [[|x [|y [|]]]|]; try done. by destruct (Hp x y).
Qed.

Lemma delete_chat_without_pair_witness :
  let s := after (call_create_chat 1 2) empty_store in
  delete_chat (Some [1; 2; 3]) None s = (Raise TypeError, s).
Proof.
  intros s. apply (delete_chat_without_pair s (Some [1; 2; 3]) None).
  - by left.
  - intros a b. discriminate.
Defined.

Lemma NoDup_fmap_elem_inj {A B} (f : A → B) (l : list A) (x y : A) :
  NoDup (f <$> l) → x ∈ l → y ∈ l → f x = f y → x = y.
Proof.
  induction l as [|z l IH]; [by intros _ ?%elem_of_nil|].
  rewrite fmap_cons. intros [Hz Hl]%NoDup_cons [->|Hx]%elem_of_cons [->|Hy]%elem_of_cons Hf.
  - done.
  - destruct Hz. rewrite Hf. by apply list_elem_of_fmap_2.
  - destruct Hz. rewrite <- Hf. by apply list_elem_of_fmap_2.
  - by apply IH.
Qed.

Lemma filter_ext_elem {A} (P Q : A → Prop) `{!∀ x, Decision (P x), !∀ x, Decision (Q x)}
    (l : list A) :
  (∀ x, x ∈ l → P x ↔ Q x) → filter P l = filter Q l.
Proof.
  induction l as [|x l IH]; [done|]. intros HPQ.
  rewrite !filter_cons. rewrite IH by (intros y Hy; apply HPQ; by right).
  pose proof (HPQ x (list_elem_of_here x l)) as Hx.
  destruct (decide (P x)), (decide (Q x)); tauto || done.
Qed.

(** In a well-shaped table, dropping the key of a row is dropping the
    row. *)
Lemma filter_chat_id_row (t : list Chat) (r : Chat) :
  table_ok t → r ∈ t →
  filter (λ x, chat_id x ≠ chat_id r) t = filter (λ x, pair_of x ≠ pair_of r) t.
Proof.
  intros (_ & Hids & Hpairs) Hr. apply filter_ext_elem. intros x Hx. split.
  - intros Hne Heq. apply Hne. f_equal. by apply (NoDup_fmap_elem_inj pair_of t).
  - intros Hne Heq. apply Hne. f_equal. by apply (NoDup_fmap_elem_inj chat_id t).
Qed.

(** X8. Where the process can be, a delete_chat by pair that returned has
    removed the rows that join that pair and no other row. *)
Theorem delete_chat_removes_only_pair (s s' : Store) (a b : Z) :
  reachable s → delete_chat (Some [a; b]) None s = (Return tt, s') →
  chats s' = filter (λ r, pair_of r ≠ sorted a b) (chats s).
Proof.
  intros [Hc Ht]%reachable_both. rewrite delete_chat_cases.
  cbn [truthy get_chat_id_by_users_ids_star]. cbn zeta.
  destruct (get_chat_id_by_users_ids_coherent a b s Hc) as (Hr & Hch & _).
  destruct (get_chat_id_by_users_ids a b s) as [[i|e] s0]; cbn [fst snd] in *; [|done].
  intros [= <-]. cbn [chats]. rewrite Hch.
  destruct (where_pair_cases (Z.min a b) (Z.max a b) (chats s) Ht)
    as [Hnone|(j & Hone & Hj & Hin)].
  - by rewrite get_chat_id_by_users_ids_body_none in Hr.
  - rewrite (get_chat_id_by_users_ids_body_one a b j) in Hr by done.
    injection Hr as ->. exact (filter_chat_id_row (chats s) _ Ht Hin).
Qed.

Lemma delete_chat_removes_only_pair_witness :
  let s := after (call_create_chat 2 3) (after (call_create_chat 1 2) empty_store) in
  chats (delete_chat (Some [2; 1]) None s).2
  = filter (λ r, pair_of r ≠ sorted 2 1) (chats s).
Proof.
  intros s. apply (delete_chat_removes_only_pair s (delete_chat (Some [2; 1]) None s).2 2 1).
  - subst s. do 2 apply reachable_after. apply reachable_empty.
  - reflexivity.
Defined.

(** X9. Where the process can be, delete_chat with the key of a row of
    the table returns whatever the pair argument is, removes that row and
    no other, and is_chat_between then returns false for the users of the
    row. *)
Theorem delete_chat_by_chat_id (s : Store) (p : option (list Z)) (r : Chat) :
  reachable s → r ∈ chats s →
  ∃ s', delete_chat p (Some (chat_id r)) s = (Return tt, s')
        ∧ chats s' = filter (λ x, x ≠ r) (chats s)
        ∧ (is_chat_between (user1_id r) (user2_id r) s').1 = Return false
        ∧ (is_chat_between (user2_id r) (user1_id r) s').1 = Return false.
Proof.
  intros [Hc Ht]%reachable_both Hr. rewrite delete_chat_cases.
  pose proof Ht as (Hrows & Hids & _).
  rewrite Forall_forall in Hrows. destruct (Hrows r Hr) as [Hle Hpos].
  cbn [truthy]. rewrite decide_False by lia. eexists. split; [reflexivity|].
  assert (filter (λ x, chat_id x ≠ chat_id r) (chats s) = filter (λ x, x ≠ r) (chats s))
    as Hfilter.
  { apply filter_ext_elem. intros x Hx. split.
    - intros Hne ->. done.
    - intros Hne Heq. apply Hne. by apply (NoDup_fmap_elem_inj chat_id (chats s)). }
  cbn [chats]. split; [done|].
  assert (where_pair (user1_id r) (user2_id r)
            (filter (λ x, chat_id x ≠ chat_id r) (chats s)) = []) as Hgone.
  { rewrite (filter_chat_id_row _ _ Ht Hr). apply where_pair_nil_iff.
    intros (x & Hx & Hin)%list_elem_of_fmap.
    apply list_elem_of_filter in Hin as [Hne _]. by destruct Hne. }
  assert (∀ a b, Z.min a b = user1_id r → Z.max a b = user2_id r →
            (is_chat_between a b
               (mkStore (filter (λ x, chat_id x ≠ chat_id r) (chats s)) [] [])).1
            = Return false) as Hread.
  { intros a b Hmin Hmax. unfold is_chat_between, lru_cache. cbn [cache_get chats
      is_chat_between_cache]. unfold is_chat_between_body, sorted.
    rewrite Hmin, Hmax, Hgone. done. }
  split; apply Hread; lia.
Qed.

Lemma delete_chat_by_chat_id_witness :
  let s := after (call_create_chat 2 3) (after (call_create_chat 1 2) empty_store) in
  ∃ s', delete_chat None (Some 2) s = (Return tt, s')
        ∧ chats s' = filter (λ x, x ≠ mkChat 2 2 3) (chats s)
        ∧ (is_chat_between 2 3 s').1 = Return false
        ∧ (is_chat_between 3 2 s').1 = Return false.
Proof.
  intros s. apply (delete_chat_by_chat_id s None (mkChat 2 2 3)).
  - subst s. do 2 apply reachable_after. apply reachable_empty.
  - subst s. vm_compute. right. left.
Defined.


Lemma cache_get_None {V} (k : Z * Z) (c : cache V) : cache_get k c = None → k ∉ c.*1.
Proof.
  induction c as [|[k' v] c IH]; [intros _ ?%elem_of_nil; done|].
  cbn [cache_get]. case_decide as Hk; [done|]. intros H. rewrite fmap_cons.
  intros [Heq|Hin]%elem_of_cons; [by destruct Hk | by apply IH].
Qed.

Lemma lru_cache_ok {V} (k : Z * Z) (body : outcome V) (c : cache V) :
  cache_ok c → cache_ok (lru_cache k body c).2.
Proof.
  intros [Hlen Hnd]. unfold lru_cache.
  destruct (cache_get k c) as [v|] eqn:Hget; cbn [snd].
  - apply cache_get_elem in Hget. split.
    + cbn [length]. unfold cache_drop.
      pose proof (length_filter_lt (λ e : Z * Z * V, e.1 ≠ k) c (k, v) Hget
                    (λ H, H eq_refl)) as Hlt.
      apply (Nat.le_trans _ (length c)); [exact Hlt | exact Hlen].
    + rewrite fmap_cons. apply NoDup_cons. split; [|by apply NoDup_fmap_filter].
      intros (e & He & Hin)%list_elem_of_fmap. unfold cache_drop in Hin.
      apply list_elem_of_filter in Hin as [Hne _]. cbn [fst] in He. by destruct Hne.
  - apply cache_get_None in Hget. destruct body as [v|e]; cbn [snd]; [|done]. split.
    + rewrite length_take. lia.
    + rewrite fmap_take. eapply sublist_NoDup; [|apply sublist_take].
      rewrite fmap_cons. by apply NoDup_cons.
Qed.

Lemma after_caches_ok (c : call) (s : Store) :
  cache_ok (is_chat_between_cache s) ∧ cache_ok (get_chat_id_by_users_ids_cache s) →
  cache_ok (is_chat_between_cache (after c s))
  ∧ cache_ok (get_chat_id_by_users_ids_cache (after c s)).
Proof.
  assert (∀ V, cache_ok ([] : cache V)) as Hnil.
  { intros V. split; [cbn; lia | constructor]. }
  assert (∀ a b, cache_ok (is_chat_between_cache s) →
            cache_ok (is_chat_between_cache (is_chat_between a b s).2)
            ∧ get_chat_id_by_users_ids_cache (is_chat_between a b s).2
              = get_chat_id_by_users_ids_cache s) as Hread1.
  { intros a b H. unfold is_chat_between.
    pose proof (lru_cache_ok (a, b) (is_chat_between_body a b (chats s)) _ H) as Hok.
    by destruct (lru_cache _ _ _). }
  assert (∀ a b, cache_ok (get_chat_id_by_users_ids_cache s) →
            cache_ok (get_chat_id_by_users_ids_cache (get_chat_id_by_users_ids a b s).2)
            ∧ is_chat_between_cache (get_chat_id_by_users_ids a b s).2
              = is_chat_between_cache s) as Hread2.
  { intros a b H. unfold get_chat_id_by_users_ids.
    pose proof (lru_cache_ok (a, b) (get_chat_id_by_users_ids_body a b (chats s)) _ H)
      as Hok.
    by destruct (lru_cache _ _ _). }
  intros [He Hi]. destruct c as [a b|p c|a b|a b]; cbn [after].
  - rewrite create_chat_cases. cbn zeta.
    destruct (Hread1 (Z.min a b) (Z.max a b) He) as [H1 H2].
    destruct (is_chat_between _ _ s) as [[[|]|e] s1]; cbn [fst snd] in *;
      rewrite ?H2; by split.
  - rewrite delete_chat_cases. destruct (truthy c); [by split|]. cbn zeta.
    destruct p as [[|x [|y [|]]]|]; try (by split).
    cbn [get_chat_id_by_users_ids_star]. destruct (Hread2 x y Hi) as [H1 H2].
    destruct (get_chat_id_by_users_ids x y s) as [[i|e] s1]; cbn [fst snd] in *;
      rewrite ?H2; by split.
  - destruct (Hread1 a b He) as [H1 ->]. by split.
  - destruct (Hread2 a b Hi) as [H1 ->]. by split.
Qed.

(** X10. Where the process can be, neither memo table holds more than
    maxsize (256) entries, and neither holds two entries for the same
    pair of arguments. *)
Theorem reachable_caches_ok (s : Store) :
  reachable s →
  cache_ok (is_chat_between_cache s) ∧ cache_ok (get_chat_id_by_users_ids_cache s).
Proof.
  induction 1 as [|c s _ IH].
  - split; (split; [cbn; lia | constructor]).
  - by apply after_caches_ok.
Qed.

Lemma reachable_caches_ok_witness :
  let s := after (call_is_chat_between 2 1)
             (after (call_is_chat_between 1 2) (after (call_create_chat 1 2) empty_store)) in
  cache_ok (is_chat_between_cache s) ∧ cache_ok (get_chat_id_by_users_ids_cache s).
Proof.
  intros s. apply reachable_caches_ok. subst s.
  do 3 apply reachable_after. apply reachable_empty.
Defined.

Lemma lru_cache_hit_after {V} (k : Z * Z) (body body' : outcome V) (c : cache V) (v : V) :
  (lru_cache k body c).1 = Return v →
  (lru_cache k body' (lru_cache k body c).2).1 = Return v.
Proof.
  unfold lru_cache at 1 3.
  destruct (cache_get k c) as [v0|]; cbn [fst snd].
  - intros [= ->]. unfold lru_cache. cbn [cache_get]. by rewrite decide_True.
  - destruct body as [v0|e]; cbn [fst snd]; [|done]. intros [= ->].
    unfold lru_cache. change (take maxsize ((k, v) :: c)) with ((k, v) :: take 255 c).
    cbn [cache_get]. by rewrite decide_True.
Qed.

(** X11. In any state whatever, once a memoized query has returned a
    value for given arguments, the next call with the same arguments
    returns that value again whatever the chats table has meanwhile
    become: until a cache_clear the answer is not read from the table. *)
Theorem memoized_answer_ignores_table (s : Store) (a b : Z) (t' : list Chat) :
  (∀ v, (is_chat_between a b s).1 = Return v →
     (is_chat_between a b (set_chats (λ _, t') (is_chat_between a b s).2)).1 = Return v)
  ∧ (∀ i, (get_chat_id_by_users_ids a b s).1 = Return i →
       (get_chat_id_by_users_ids a b
          (set_chats (λ _, t') (get_chat_id_by_users_ids a b s).2)).1 = Return i).
Proof.
  split.
  - intros v. unfold is_chat_between at 1 3.
    pose proof (lru_cache_hit_after (a, b) (is_chat_between_body a b (chats s))
                  (is_chat_between_body a b t') (is_chat_between_cache s) v) as H.
    destruct (lru_cache (a, b) (is_chat_between_body a b (chats s)) _) as [r c].
    cbn [fst snd] in *. intros Hr. specialize (H Hr).
    unfold is_chat_between. cbn [set_chats set_is_chat_between_cache chats
      is_chat_between_cache]. by destruct (lru_cache _ _ c).
  - intros i. unfold get_chat_id_by_users_ids at 1 3.
    pose proof (lru_cache_hit_after (a, b) (get_chat_id_by_users_ids_body a b (chats s))
                  (get_chat_id_by_users_ids_body a b t')
                  (get_chat_id_by_users_ids_cache s) i) as H.
    destruct (lru_cache (a, b) (get_chat_id_by_users_ids_body a b (chats s)) _) as [r c].
    cbn [fst snd] in *. intros Hr. specialize (H Hr).
    unfold get_chat_id_by_users_ids. cbn [set_chats set_get_chat_id_by_users_ids_cache
      chats get_chat_id_by_users_ids_cache]. by destruct (lru_cache _ _ c).
Qed.

Lemma memoized_answer_ignores_table_witness :
  (is_chat_between 1 2 (set_chats (λ _, [mkChat 1 1 2]) (is_chat_between 1 2 empty_store).2)).1
  = Return false.
Proof.
  apply (proj1 (memoized_answer_ignores_table empty_store 1 2 [mkChat 1 1 2]) false).
  reflexivity.
Defined.

(** X12. Where the process can be, after a delete_chat by pair that
    returned, create_chat for the same users in either order returns
    again and appends the row of the ascending pair. *)
Theorem delete_chat_then_create_chat (s s1 : Store) (a b : Z) :
  reachable s → delete_chat (Some [a; b]) None s = (Return tt, s1) →
  ∃ s2, create_chat b a s1 = (Return tt, s2)
        ∧ chats s2 = chats s1 ++ [mkChat (next_chat_id (chats s1)) (Z.min a b) (Z.max a b)].
Proof.
  intros Hc%reachable_coherent Hdel.
  destruct (delete_chat_pair_returns a b s s1 Hc Hdel) as [Hgone Hc1].
  destruct (create_chat_fresh b a s1 Hc1) as (s2 & H2 & Ht2 & _).
  { by rewrite Z.min_comm, Z.max_comm. }
  exists s2. split; [done|]. by rewrite Ht2, Z.min_comm, Z.max_comm.
Qed.

Lemma delete_chat_then_create_chat_witness :
  let s := after (call_create_chat 1 2) empty_store in
  ∃ s2, create_chat 2 1 (delete_chat (Some [1; 2]) None s).2 = (Return tt, s2)
        ∧ chats s2 = [mkChat 1 1 2].
Proof.
  intros s. apply (delete_chat_then_create_chat s (delete_chat (Some [1; 2]) None s).2 1 2).
  - subst s. apply reachable_after, reachable_empty.
  - reflexivity.
Defined.

End ChatsShape.

(** * More facts about tokens and the views *)

Section MoreAuthFacts.
Import Auth Views.
Variable env : Env.

Lemma query_get_Some (id : Z) (t : list User) (u : User) :
  query_get id t = Some u → user_id u = id ∧ u ∈ t.
Proof.
  unfold query_get. intros H%head_Some_elem_of.
  apply list_elem_of_filter in H as [H1 H2]. done.
Qed.

Lemma query_get_None (id : Z) (t : list User) :
  query_get id t = None → ∀ u, u ∈ t → user_id u ≠ id.
Proof.
  unfold query_get. intros H u Hu Hid.
  assert (u ∈ filter (λ u, user_id u = id) t) as Hin by (by apply list_elem_of_filter).
  destruct (filter _ t); [by apply elem_of_nil in Hin | done].
Qed.

(** X13. get_user_by_id changes nothing; when it returns, the user is a
    row of the table and has the id asked for; when it raises, it raises
    UserNotFoundByIndexError and no row has that id. *)
Theorem get_user_by_id_cases (id : Z) (st : App) :
  match get_user_by_id id st with
  | (Return u, st') => st' = st ∧ user_id u = id ∧ u ∈ users st
  | (Raise e, st') =>
      st' = st ∧ e = UserNotFoundByIndexError ∧ ∀ u, u ∈ users st → user_id u ≠ id
  end.
Proof.
  unfold get_user_by_id. destruct (query_get id (users st)) as [u|] eqn:Hq.
  - apply query_get_Some in Hq. tauto.
  - repeat split. by apply query_get_None.
Qed.

Lemma loads_dumps_bad_header (key : string) (expires_in now later : Z)
    (payload : gmap string Z) :
  now + expires_in < 0 →
  loads env key later (dumps env key expires_in now payload) = Raise BadHeader.
Proof.
  intros Hneg. unfold loads, dumps. cbn [exp].
  rewrite decide_True by done. by rewrite decide_True by lia.
Qed.

(** The outcome of [loads] on what [dumps] made, by the expiry time. *)
Lemma loads_dumps_cases (key : string) (expires_in now later : Z)
    (payload : gmap string Z) :
  loads env key later (dumps env key expires_in now payload) =
    if decide (now + expires_in < 0) then Raise BadHeader
    else if decide (now + expires_in < later) then Raise SignatureExpired
    else Return payload.
Proof.
  case_decide; [by apply loads_dumps_bad_header|].
  case_decide; [apply loads_dumps_expired | apply loads_dumps]; lia.
Qed.

(** X14. For a user that the table holds under its id, what verifying a
    token of either class gives depends only on the expiry time of the
    token (issue time plus window, None or 0 standing for the configured
    default): BadHeader when the expiry time is negative; otherwise the
    user at every moment up to and including the expiry time, and
    SignatureExpired at every later moment. *)
Theorem token_outcome_by_expiry (k : token_class) (u : User) (w : option Z)
    (now later : Z) (st : App) :
  query_get (user_id u) (users st) = Some u →
  get_user_by_token env k later (get_token env k u w now) st =
    if decide (now + or_default w (default_expires_in env k) < 0) then
      (Raise BadHeader, st)
    else if decide (now + or_default w (default_expires_in env k) < later) then
      (Raise SignatureExpired, st)
    else (Return u, st).
Proof.
  intros Hu. rewrite get_user_by_token_loads, get_token_dumps, loads_dumps_cases.
  case_decide; [done|]. case_decide; [done|].
  rewrite getitem_user_id. by apply get_user_by_id_found.
Qed.

(** X15. A token of either class issued with a negative period is
    rejected already at the moment it is issued, whoever it was issued
    for: verifying it at once raises BadHeader when issue time plus
    period is negative, and SignatureExpired otherwise. *)
Theorem negative_period_rejected_at_issue (k : token_class) (u : User) (p now : Z)
    (st : App) :
  p < 0 →
  get_user_by_token env k now (get_token env k u (Some p) now) st =
    (Raise (if decide (now + p < 0) then BadHeader else SignatureExpired), st).
Proof.
  intros Hp. rewrite get_user_by_token_loads, get_token_dumps, loads_dumps_cases.
  cbn [or_default]. rewrite (decide_False (P := p = 0)) by lia.
  case_decide; [done|]. by rewrite decide_True by lia.
Qed.

Lemma loads_raises (key : string) (now : Z) (token : Token) (e : exn) :
  loads env key now token = Raise e →
  e = BadSignature ∨ e = BadHeader ∨ e = SignatureExpired.
Proof.
  unfold loads. destruct token as [raw|header payload sig]; [intros [= <-]; tauto|].
  repeat case_decide; intros [= <-]; tauto.
Qed.

Lemma get_user_by_reset_password_token_unfold (now : Z) (token : Token) (st : App) :
  get_user_by_reset_password_token env now token st
  = get_user_by_token env reset_password now token st.
Proof. done. Qed.

Lemma ResetPasswordView_get_unfold (token : Token) (now : Z) (st : App) :
  ResetPasswordView_get env token now st =
    match get_user_by_reset_password_token env now token st with
    | (Return u, st') =>
        (Return (render_template "authentication/reset_password.html" (Some u)), st')
    | (Raise e, st') =>
        if isinstance e SignatureExpired then
          (Return (render_template "authentication/reset_password_expired.html" None), st')
        else if isinstance e BadSignature then (Raise HTTPNotFound, st')
        else (Raise e, st')
    end.
Proof.
  unfold ResetPasswordView_get, try_except, bind.
  destruct (get_user_by_reset_password_token env now token st) as [[u|e] st']; [done|].
  destruct (isinstance e SignatureExpired); [done|].
  by destruct (isinstance e BadSignature).
Qed.

(** X16. ResetPasswordView.get changes nothing, whatever the token; it
    answers with the expired page or with the reset page for a user of
    the table, or raises the 404 of abort, KeyError or
    UserNotFoundByIndexError, and never lets a signature error out. *)
Theorem ResetPasswordView_get_outcomes (token : Token) (now : Z) (st : App) :
  (ResetPasswordView_get env token now st).2 = st
  ∧ match (ResetPasswordView_get env token now st).1 with
    | Return page =>
        page = render_template "authentication/reset_password_expired.html" None
        ∨ ∃ u, page = render_template "authentication/reset_password.html" (Some u)
               ∧ u ∈ users st
    | Raise e => e = HTTPNotFound ∨ e = KeyError ∨ e = UserNotFoundByIndexError
    end.
Proof.
  rewrite ResetPasswordView_get_unfold, get_user_by_reset_password_token_unfold,
    get_user_by_token_loads.
  destruct (loads env (SECRET_KEY env) now token) as [payload|e] eqn:Hl.
  - destruct (getitem payload "user_id") as [id|e] eqn:Hg.
    + unfold get_user_by_id. destruct (query_get id (users st)) as [u|] eqn:Hq.
      * destruct (query_get_Some _ _ _ Hq) as [_ Hin]. cbn. eauto.
      * vm_compute. tauto.
    + unfold getitem in Hg. destruct (payload !! "user_id"); [done|].
      injection Hg as <-. vm_compute. tauto.
  - destruct (loads_raises _ _ _ _ Hl) as [->|[->| ->]]; vm_compute; tauto.
Qed.

(** X17. A reset-password token that is still live but was issued for a
    user whose id no row has makes ResetPasswordView.get raise
    UserNotFoundByIndexError: it is answered neither with the 404 nor
    with a page. *)
Theorem ResetPasswordView_get_unknown_user (u : User) (w : option Z) (now later : Z)
    (st : App) :
  query_get (user_id u) (users st) = None →
  0 ≤ now + or_default w (PASSWORD_DEFAULT_EXPIRES_IN env) →
  later ≤ now + or_default w (PASSWORD_DEFAULT_EXPIRES_IN env) →
  ResetPasswordView_get env (get_reset_password_token env u w now) later st
  = (Raise UserNotFoundByIndexError, st).
Proof.
  intros Hu Hpos Hlive.
  rewrite ResetPasswordView_get_unfold, get_user_by_reset_password_token_unfold,
    get_user_by_token_loads.
  change (get_reset_password_token env u w now) with (get_token env reset_password u w now).
  rewrite get_token_dumps, loads_dumps, getitem_user_id by done.
  unfold get_user_by_id. by rewrite Hu.
Qed.


(** What a token that resolves to a user says about the table. *)
Lemma get_user_by_reset_password_token_returns (now : Z) (token : Token) (st st' : App)
    (u : User) :
  get_user_by_reset_password_token env now token st = (Return u, st') →
  st' = st ∧ query_get (user_id u) (users st) = Some u
  ∧ ∃ payload, loads env (SECRET_KEY env) now token = Return payload
               ∧ getitem payload "user_id" = Return (user_id u).
Proof.
  rewrite get_user_by_reset_password_token_unfold, get_user_by_token_loads.
  destruct (loads env (SECRET_KEY env) now token) as [payload|e]; [|done].
  destruct (getitem payload "user_id") as [id|e] eqn:Hg; [|done].
  unfold get_user_by_id. destruct (query_get id (users st)) as [u'|] eqn:Hq; [|done].
  intros [= -> <-]. destruct (query_get_Some _ _ _ Hq) as [<- _]. eauto.
Qed.

Lemma query_get_fmap (f : User → User) (id : Z) (t : list User) :
  (∀ x, user_id (f x) = user_id x) →
  query_get id (f <$> t) = f <$> query_get id t.
Proof.
  intros Hf. unfold query_get. induction t as [|x t IH]; [done|].
  rewrite fmap_cons, !filter_cons, Hf. case_decide; [done | exact IH].
Qed.

Lemma query_get_add_commit (u' : User) (id : Z) (t : list User) :
  query_get id ((λ x, if decide (user_id x = user_id u') then u' else x) <$> t)
  = (λ x, if decide (user_id x = user_id u') then u' else x) <$> query_get id t.
Proof. apply query_get_fmap. intros x. by case_decide. Qed.

(** [ResetPasswordView.post] once the two fields are read and the token
    has resolved to a user. *)
Lemma ResetPasswordView_post_resolved (token : Token) (form : gmap string string)
    (now : Z) (st : App) (p1 p2 : string) (u : User) :
  form !! "password1" = Some p1 → form !! "password2" = Some p2 →
  get_user_by_reset_password_token env now token st = (Return u, st) →
  ResetPasswordView_post env token form now st =
    if decide (p1 = p2) then
      if bool_decide (min_password_length env ≤ String.length p2)%nat then
        (Return (redirect "authentication.login"),
         mkApp ((λ x, if decide (user_id x = user_id u) then set_password env u p2 else x)
                  <$> users st)
               (session st) (flashed st ++ ["You password was successfully reset"])
               (g_user st))
      else
        (Return (render_template "authentication/reset_password.html" (Some u)),
         (flash (password_length_message env) st).2)
    else
      (Return (render_template "authentication/reset_password.html" (Some u)),
       (flash "Given passwords do not match" st).2).
Proof.
  intros H1 H2 Hres. unfold ResetPasswordView_post.
  rewrite (bind_form_get _ _ _ _ _ H1), (bind_form_get _ _ _ _ _ H2).
  unfold bind at 1. rewrite Hres.
  unfold try_except, bind, lift_outcome, validate_equal_passwords,
    validate_password_length.
  case_decide; [|done]. by case_bool_decide.
Qed.

(** X18. When the token resolves to a user and the form holds the same
    long-enough password twice, ResetPasswordView.post answers with the
    redirect to login; afterwards the row of that user holds the hash of
    the new password, the lookup of every other id is as before, and the
    number of rows and the session are unchanged. *)
Theorem ResetPasswordView_post_success (token : Token) (form : gmap string string)
    (now : Z) (st : App) (p : string) (u : User) :
  form !! "password1" = Some p → form !! "password2" = Some p →
  (min_password_length env ≤ String.length p)%nat →
  get_user_by_reset_password_token env now token st = (Return u, st) →
  let st' := (ResetPasswordView_post env token form now st).2 in
  (ResetPasswordView_post env token form now st).1 = Return (redirect "authentication.login")
  ∧ query_get (user_id u) (users st') = Some (set_password env u p)
  ∧ (∀ id, id ≠ user_id u → query_get id (users st') = query_get id (users st))
  ∧ length (users st') = length (users st)
  ∧ session st' = session st.
Proof.
  intros H1 H2 Hlen Hres st'. subst st'.
  rewrite (ResetPasswordView_post_resolved _ _ _ _ p p u H1 H2 Hres).
  rewrite decide_True, bool_decide_eq_true_2 by done. cbn [fst snd users session].
  destruct (get_user_by_reset_password_token_returns _ _ _ _ _ Hres) as (_ & Hq & _).
  repeat split.
  - rewrite (query_get_add_commit (set_password env u p)), Hq. cbn.
    by rewrite decide_True.
  - intros id Hid. rewrite (query_get_add_commit (set_password env u p)).
    destruct (query_get id (users st)) as [x|] eqn:Hx; [|done].
    destruct (query_get_Some _ _ _ Hx) as [Hxid _]. cbn.
    rewrite decide_False; [done|]. cbn. congruence.
  - by rewrite length_fmap.
Qed.

(** X19. A reset-password token is not used up by a reset: after a
    ResetPasswordView.post that succeeded, the same token at the same
    moment still resolves, now to the user with the new hash. *)
Theorem reset_password_token_not_consumed (token : Token) (form : gmap string string)
    (now : Z) (st : App) (p : string) (u : User) :
  form !! "password1" = Some p → form !! "password2" = Some p →
  (min_password_length env ≤ String.length p)%nat →
  get_user_by_reset_password_token env now token st = (Return u, st) →
  let st' := (ResetPasswordView_post env token form now st).2 in
  get_user_by_reset_password_token env now token st' = (Return (set_password env u p), st').
Proof.
  intros H1 H2 Hlen Hres st'. subst st'.
  destruct (get_user_by_reset_password_token_returns _ _ _ _ _ Hres)
    as (_ & Hq & payload & Hl & Hg).
  rewrite get_user_by_reset_password_token_unfold, get_user_by_token_loads, Hl, Hg.
  rewrite (ResetPasswordView_post_resolved _ _ _ _ p p u H1 H2 Hres).
  rewrite decide_True, bool_decide_eq_true_2 by done. cbn [snd].
  unfold get_user_by_id. cbn [users].
  rewrite (query_get_add_commit (set_password env u p)), Hq. cbn.
  by rewrite decide_True.
Qed.

(** X20. When the token resolves to a user but the two passwords differ
    or the password is shorter than the minimum, ResetPasswordView.post
    shows the reset page for that user again, flashes one message and
    leaves the users table and the session as they were. *)
Theorem ResetPasswordView_post_rejects (token : Token) (form : gmap string string)
    (now : Z) (st : App) (p1 p2 : string) (u : User) :
  form !! "password1" = Some p1 → form !! "password2" = Some p2 →
  get_user_by_reset_password_token env now token st = (Return u, st) →
  p1 ≠ p2 ∨ (String.length p2 < min_password_length env)%nat →
  ∃ message,
    ResetPasswordView_post env token form now st
    = (Return (render_template "authentication/reset_password.html" (Some u)),
       mkApp (users st) (session st) (flashed st ++ [message]) (g_user st)).
Proof.
  intros H1 H2 Hres Hbad.
  rewrite (ResetPasswordView_post_resolved _ _ _ _ p1 p2 u H1 H2 Hres).
  case_decide as Heq; [|by eexists]. case_bool_decide as Hlen; [|by eexists].
  exfalso. destruct Hbad as [?|?]; [done | lia].
Qed.


Lemma bind_form_get_None {S A} (form : gmap string string) (key : string)
    (k : string → M S A) (st : S) :
  form !! key = None → bind (form_get form key) k st = (Raise BadRequestKeyError, st).
Proof. intros H. unfold bind, form_get. by rewrite H. Qed.

Lemma bind_form_get_Some {S A} (form : gmap string string) (key value : string)
    (k : string → M S A) (st : S) :
  form !! key = Some value → bind (form_get form key) k st = k value st.
Proof. intros H. unfold bind, form_get. by rewrite H. Qed.

(** [RegisterView.post] once the five fields are read and the checks
    have passed. *)
Lemma RegisterView_post_validated (form : gmap string string) (now : Z) (st : App)
    (e u n p1 p2 : string) :
  form !! "email" = Some e → form !! "username" = Some u → form !! "name" = Some n →
  form !! "password1" = Some p1 → form !! "password2" = Some p2 →
  try_except
    (lift_outcome (validate_email env e) ;;
     lift_outcome (validate_length n 3 25
       "Please, input name with a length between 3 and 25 chars") ;;
     lift_outcome (validate_equal_passwords p1 p2) ;;
     lift_outcome (validate_password_length env p2) ;;
     ret None)
    (except_ValidationError (render_template "authentication/register.html" None)) st
  = (Return None, st) →
  RegisterView_post env form now st =
    if bool_decide (is_Some (filter_by_email e (users st))) then
      (Return (render_template "authentication/register.html" None),
       (flash "User with such an email has been registered!" st).2)
    else if bool_decide (is_Some (filter_by_username u (users st))) then
      (Return (render_template "authentication/register.html" None),
       (flash "This username is busy! Try putting another one" st).2)
    else
      (Return (redirect "authentication.login"),
       mkApp (users st ++ [mkUser (next_user_id (users st)) u e n
                                  (generate_password_hash env p2) now])
             (session st) (flashed st ++ ["Successfully registered!"]) (g_user st)).
Proof.
  intros He Hu Hn Hp1 Hp2 Hblock. unfold RegisterView_post.
  rewrite (bind_form_get_Some _ _ _ _ _ He), (bind_form_get_Some _ _ _ _ _ Hu),
    (bind_form_get_Some _ _ _ _ _ Hn), (bind_form_get_Some _ _ _ _ _ Hp1),
    (bind_form_get_Some _ _ _ _ _ Hp2).
  unfold bind at 1. rewrite Hblock.
  unfold bind at 1. unfold gets at 1. case_bool_decide; [done|].
  unfold bind at 1. unfold gets at 1. by case_bool_decide.
Qed.

(** A registration that ended in the redirect: what was in the form and
    what became of the state. *)
Lemma RegisterView_post_redirected (form : gmap string string) (now : Z) (st : App) :
  (RegisterView_post env form now st).1 = Return (redirect "authentication.login") →
  ∃ e u n p,
    filter_by_email e (users st) = None ∧ filter_by_username u (users st) = None
    ∧ (RegisterView_post env form now st).2
      = mkApp (users st ++ [mkUser (next_user_id (users st)) u e n
                                   (generate_password_hash env p) now])
              (session st) (flashed st ++ ["Successfully registered!"]) (g_user st).
Proof.
  destruct (form !! "email") as [e|] eqn:He;
    [|unfold RegisterView_post; by rewrite (bind_form_get_None _ _ _ _ He)].
  destruct (form !! "username") as [u|] eqn:Hu;
    [|unfold RegisterView_post;
      by rewrite (bind_form_get_Some _ _ _ _ _ He), (bind_form_get_None _ _ _ _ Hu)].
  destruct (form !! "name") as [n|] eqn:Hn;
    [|unfold RegisterView_post;
      by rewrite (bind_form_get_Some _ _ _ _ _ He), (bind_form_get_Some _ _ _ _ _ Hu),
           (bind_form_get_None _ _ _ _ Hn)].
  destruct (form !! "password1") as [p1|] eqn:Hp1;
    [|unfold RegisterView_post;
      by rewrite (bind_form_get_Some _ _ _ _ _ He), (bind_form_get_Some _ _ _ _ _ Hu),
           (bind_form_get_Some _ _ _ _ _ Hn), (bind_form_get_None _ _ _ _ Hp1)].
  destruct (form !! "password2") as [p2|] eqn:Hp2;
    [|unfold RegisterView_post;
      by rewrite (bind_form_get_Some _ _ _ _ _ He), (bind_form_get_Some _ _ _ _ _ Hu),
           (bind_form_get_Some _ _ _ _ _ Hn), (bind_form_get_Some _ _ _ _ _ Hp1),
           (bind_form_get_None _ _ _ _ Hp2)].
  destruct (register_validation_cases env e n p1 p2
              (render_template "authentication/register.html" None) st)
    as [(Hblock & _ & _)|[message Hblock]].
  - rewrite (RegisterView_post_validated form now st e u n p1 p2) by done.
    case_bool_decide as Hemail; [done|]. case_bool_decide as Huser; [done|].
    intros _. exists e, u, n, p2.
    split; [by apply eq_None_not_Some|]. split; [by apply eq_None_not_Some|]. done.
  - unfold RegisterView_post.
    rewrite (bind_form_get_Some _ _ _ _ _ He), (bind_form_get_Some _ _ _ _ _ Hu),
      (bind_form_get_Some _ _ _ _ _ Hn), (bind_form_get_Some _ _ _ _ _ Hp1),
      (bind_form_get_Some _ _ _ _ _ Hp2).
    unfold bind at 1. by rewrite Hblock.
Qed.

Lemma user_id_lt_next (t : list User) (x : User) : x ∈ t → user_id x < next_user_id t.
Proof.
  unfold next_user_id. induction t as [|y t IH]; [by intros ?%elem_of_nil|].
  intros [->|H]%elem_of_cons; cbn; [lia|]. specialize (IH H). lia.
Qed.

Lemma filter_by_email_None (e : string) (t : list User) :
  filter_by_email e t = None → e ∉ email <$> t.
Proof.
  unfold filter_by_email. intros H (x & -> & Hx)%list_elem_of_fmap.
  assert (x ∈ filter (λ u, email u = email x) t) as Hin by (by apply list_elem_of_filter).
  destruct (filter _ t); [by apply elem_of_nil in Hin | done].
Qed.

Lemma filter_by_username_None (n : string) (t : list User) :
  filter_by_username n t = None → n ∉ username <$> t.
Proof.
  unfold filter_by_username. intros H (x & -> & Hx)%list_elem_of_fmap.
  assert (x ∈ filter (λ u, username u = username x) t) as Hin
    by (by apply list_elem_of_filter).
  destruct (filter _ t); [by apply elem_of_nil in Hin | done].
Qed.

Lemma filter_none {A} (P : A → Prop) `{!∀ x, Decision (P x)} (l : list A) :
  Forall (λ x, ¬ P x) l → filter P l = [].
Proof.
  induction 1 as [|x l Hx _ IH]; [done|]. by rewrite filter_cons, decide_False.
Qed.

Lemma NoDup_snoc_fresh {A} (l : list A) (x : A) : NoDup l → x ∉ l → NoDup (l ++ [x]).
Proof.
  intros Hl Hx. apply NoDup_app. repeat split; [done| |apply NoDup_singleton].
  intros y Hy ->%list_elem_of_singleton. done.
Qed.

(** X21. RegisterView.post keeps ids, emails and usernames unique: if
    each occurs once in the users table before the request, each occurs
    once after it, whatever the form holds. *)
Theorem RegisterView_post_keeps_users_ok (form : gmap string string) (now : Z)
    (st : App) :
  users_ok (users st) → users_ok (users (RegisterView_post env form now st).2).
Proof.
  intros (Hids & Hemails & Hnames).
  destruct (RegisterView_post_keeps_users env form now st) as [-> | Hredirect]; [done|].
  destruct (RegisterView_post_redirected form now st Hredirect)
    as (e & u & n & p & He & Hu & ->).
  cbn [users]. unfold users_ok. rewrite !fmap_app. cbn [fmap list_fmap].
  repeat split; apply NoDup_snoc_fresh; try done.
  - intros (x & Hx & Hin)%list_elem_of_fmap. apply user_id_lt_next in Hin. cbn in Hx. lia.
  - by apply filter_by_email_None.
  - by apply filter_by_username_None.
Qed.

(** [RegisterView.post] on a form that passes every check. *)
Lemma RegisterView_post_accepts (form : gmap string string) (now : Z) (st : App)
    (e u n p : string) :
  form !! "email" = Some e → form !! "username" = Some u → form !! "name" = Some n →
  form !! "password1" = Some p → form !! "password2" = Some p →
  email_format env e = true →
  (3 ≤ String.length n ≤ 25)%nat →
  (min_password_length env ≤ String.length p)%nat →
  filter_by_email e (users st) = None → filter_by_username u (users st) = None →
  RegisterView_post env form now st
  = (Return (redirect "authentication.login"),
     mkApp (users st ++ [mkUser (next_user_id (users st)) u e n
                                (generate_password_hash env p) now])
           (session st) (flashed st ++ ["Successfully registered!"]) (g_user st)).
Proof.
  intros He Hu Hn Hp1 Hp2 Hfmt Hname Hlen Hemail Huser.
  rewrite (RegisterView_post_validated form now st e u n p p) by
    (try done; unfold try_except, bind, lift_outcome, validate_email, validate_length,
       validate_equal_passwords, validate_password_length;
     by rewrite Hfmt, bool_decide_eq_true_2, decide_True, bool_decide_eq_true_2).
  rewrite Hemail, Huser.
  by rewrite !bool_decide_eq_false_2 by (intros [? ?]; done).
Qed.

Lemma filter_by_email_snoc (e : string) (t : list User) (x : User) :
  filter_by_email e t = None → email x = e → filter_by_email e (t ++ [x]) = Some x.
Proof.
  unfold filter_by_email. intros Hnone Hx. rewrite filter_app.
  destruct (filter (λ u, email u = e) t); [|done].
  by rewrite filter_cons, decide_True.
Qed.

(** X22. A registration with a well-formed email, a name of 3 to 25
    characters, the same long-enough password twice and an email and a
    username that no row has ends in the redirect to login and appends
    one row; the new user is then found under its id, its email and its
    username, and its hash is the hash of the password. *)
Theorem RegisterView_post_success (form : gmap string string) (now : Z) (st : App)
    (e u n p : string) :
  form !! "email" = Some e → form !! "username" = Some u → form !! "name" = Some n →
  form !! "password1" = Some p → form !! "password2" = Some p →
  email_format env e = true →
  (3 ≤ String.length n ≤ 25)%nat →
  (min_password_length env ≤ String.length p)%nat →
  filter_by_email e (users st) = None → filter_by_username u (users st) = None →
  let new := mkUser (next_user_id (users st)) u e n (generate_password_hash env p) now in
  let st' := (RegisterView_post env form now st).2 in
  (RegisterView_post env form now st).1 = Return (redirect "authentication.login")
  ∧ users st' = users st ++ [new]
  ∧ query_get (user_id new) (users st') = Some new
  ∧ filter_by_email e (users st') = Some new
  ∧ filter_by_username u (users st') = Some new.
Proof.
  intros He Hu Hn Hp1 Hp2 Hfmt Hname Hlen Hemail Huser new st'. subst st'.
  rewrite (RegisterView_post_accepts form now st e u n p) by done.
  cbn [fst snd users]. fold new. repeat split.
  - unfold query_get. rewrite filter_app.
    assert (filter (λ x, user_id x = user_id new) (users st) = []) as ->.
    { apply filter_none. rewrite Forall_forall. intros x Hx%user_id_lt_next.
      cbn. lia. }
    rewrite filter_cons, decide_True by done. done.
  - by apply filter_by_email_snoc.
  - unfold filter_by_username in *. rewrite filter_app.
    destruct (filter (λ x, username x = u) (users st)); [|done].
    rewrite filter_cons, decide_True by done. done.
Qed.

(** X23. A registration form that lacks one of the five fields is
    answered with BadRequestKeyError before anything is checked or
    written: the whole state stays as it was. *)
Theorem RegisterView_post_missing_field (form : gmap string string) (now : Z)
    (st : App) (key : string) :
  key ∈ ["email"; "username"; "name"; "password1"; "password2"] →
  form !! key = None →
  RegisterView_post env form now st = (Raise BadRequestKeyError, st).
Proof.
  intros Hkey Hnone. unfold RegisterView_post.
  destruct (form !! "email") as [e|] eqn:He;
    [rewrite (bind_form_get_Some _ _ _ _ _ He) | by rewrite (bind_form_get_None _ _ _ _ He)].
  destruct (form !! "username") as [u|] eqn:Hu;
    [rewrite (bind_form_get_Some _ _ _ _ _ Hu) | by rewrite (bind_form_get_None _ _ _ _ Hu)].
  destruct (form !! "name") as [n|] eqn:Hn;
    [rewrite (bind_form_get_Some _ _ _ _ _ Hn) | by rewrite (bind_form_get_None _ _ _ _ Hn)].
  destruct (form !! "password1") as [p1|] eqn:Hp1;
    [rewrite (bind_form_get_Some _ _ _ _ _ Hp1)
    | by rewrite (bind_form_get_None _ _ _ _ Hp1)].
  destruct (form !! "password2") as [p2|] eqn:Hp2;
    [rewrite (bind_form_get_Some _ _ _ _ _ Hp2)
    | by rewrite (bind_form_get_None _ _ _ _ Hp2)].
  exfalso. repeat (apply elem_of_cons in Hkey as [->|Hkey]; [congruence|]).
  by apply elem_of_nil in Hkey.
Qed.


Section WithHash.
Variable check_password_hash : string → string → bool.

(** [LoginView.post] once the two fields are read. *)
Lemma LoginView_post_fields (form args : gmap string string) (st : App) (e p : string) :
  form !! "email" = Some e → form !! "password" = Some p →
  LoginView_post check_password_hash form args st =
    match filter_by_email e (users st) with
    | None =>
        (Return (reply_template "authentication/login.html"),
         (flash "Wrong email! Maybe, you have not registered" st).2)
    | Some u =>
        if verify_password check_password_hash u p then
          (Return (reply_redirect (next_or_index args)),
           set_session (insert "current_user_id" (user_id u))
             (flash "Successfully logged in!" st).2)
        else
          (Return (reply_template "authentication/login.html"),
           (flash "Wrong password! Try again" st).2)
    end.
Proof.
  intros He Hp. unfold LoginView_post.
  rewrite (bind_form_get_Some _ _ _ _ _ He), (bind_form_get_Some _ _ _ _ _ Hp).
  unfold bind at 1. unfold gets at 1.
  destruct (filter_by_email e (users st)) as [u|]; [|done].
  by destruct (verify_password check_password_hash u p).
Qed.

(** X24. A login with an email that no row has, or with a password that
    the hash of the row found does not accept, shows the login page
    again with its own message and writes nothing into the session. *)
Theorem LoginView_post_rejects (form args : gmap string string) (st : App)
    (e p : string) :
  form !! "email" = Some e → form !! "password" = Some p →
  (filter_by_email e (users st) = None →
     LoginView_post check_password_hash form args st
     = (Return (reply_template "authentication/login.html"),
        mkApp (users st) (session st)
              (flashed st ++ ["Wrong email! Maybe, you have not registered"]) (g_user st)))
  ∧ (∀ u, filter_by_email e (users st) = Some u →
       check_password_hash (password_hash u) p = false →
       LoginView_post check_password_hash form args st
       = (Return (reply_template "authentication/login.html"),
          mkApp (users st) (session st)
                (flashed st ++ ["Wrong password! Try again"]) (g_user st))).
Proof.
  intros He Hp. rewrite (LoginView_post_fields form args st e p He Hp). split.
  - by intros ->.
  - intros u -> Hv. unfold verify_password. by rewrite Hv.
Qed.

Lemma filter_by_email_Some (e : string) (t : list User) (u : User) :
  filter_by_email e t = Some u → u ∈ t ∧ email u = e.
Proof.
  unfold filter_by_email. intros H%head_Some_elem_of.
  apply list_elem_of_filter in H as [H1 H2]. done.
Qed.

Lemma query_get_elem (t : list User) (u : User) :
  NoDup (user_id <$> t) → u ∈ t → query_get (user_id u) t = Some u.
Proof.
  intros Hnd Hu. destruct (query_get (user_id u) t) as [x|] eqn:Hq.
  - destruct (query_get_Some _ _ _ Hq) as [Hid Hx]. f_equal.
    by apply (NoDup_fmap_elem_inj user_id t).
  - by destruct (query_get_None _ _ Hq u Hu).
Qed.

(** X25. With ids unique in the users table, a login with the email of
    a row and a password that its hash accepts answers with the redirect
    to next (or to the index), stores the id of that user in the session,
    and the resolution of the next request puts that user into g.user. *)
Theorem LoginView_post_then_recognize (form args : gmap string string) (st : App)
    (e p : string) (u : User) :
  form !! "email" = Some e → form !! "password" = Some p →
  filter_by_email e (users st) = Some u →
  check_password_hash (password_hash u) p = true →
  NoDup (user_id <$> users st) →
  let st1 := (LoginView_post check_password_hash form args st).2 in
  (LoginView_post check_password_hash form args st).1
    = Return (reply_redirect (next_or_index args))
  ∧ session st1 !! "current_user_id" = Some (user_id u)
  ∧ users st1 = users st
  ∧ recognize_logged_in_user st1 = (Return tt, set_g_user (Some u) st1).
Proof.
  intros He Hp Hu Hv Hnd st1. subst st1.
  rewrite (LoginView_post_fields form args st e p He Hp), Hu.
  unfold verify_password. rewrite Hv. cbn [fst snd].
  assert (session (set_session (insert "current_user_id" (user_id u))
                     (flash "Successfully logged in!" st).2) !! "current_user_id"
          = Some (user_id u)) as Hs by apply lookup_insert_eq.
  repeat split; [done|].
  unfold recognize_logged_in_user, bind, gets. rewrite Hs.
  unfold get_user_by_id. cbn [users set_session flash modify snd].
  destruct (filter_by_email_Some _ _ _ Hu) as [Hin _].
  by rewrite (query_get_elem (users st) u Hnd Hin).
Qed.

End WithHash.

(** X26. With the hash accepting the password it was made from, a
    registration that passes every check followed by a login with the
    same email and password logs the new user in: the session then holds
    the id of the appended row. *)
Theorem RegisterView_post_then_LoginView_post (check_password_hash : string → string → bool)
    (form login_form args : gmap string string) (now : Z) (st : App) (e u n p : string) :
  form !! "email" = Some e → form !! "username" = Some u → form !! "name" = Some n →
  form !! "password1" = Some p → form !! "password2" = Some p →
  email_format env e = true →
  (3 ≤ String.length n ≤ 25)%nat →
  (min_password_length env ≤ String.length p)%nat →
  filter_by_email e (users st) = None → filter_by_username u (users st) = None →
  login_form !! "email" = Some e → login_form !! "password" = Some p →
  check_password_hash (generate_password_hash env p) p = true →
  let st1 := (RegisterView_post env form now st).2 in
  (LoginView_post check_password_hash login_form args st1).1
    = Return (reply_redirect (next_or_index args))
  ∧ session (LoginView_post check_password_hash login_form args st1).2
      !! "current_user_id" = Some (next_user_id (users st)).
Proof.
  intros He Hu Hn Hp1 Hp2 Hfmt Hname Hlen Hemail Huser Hle Hlp Hcheck st1. subst st1.
  rewrite (RegisterView_post_accepts form now st e u n p) by done. cbn [snd].
  rewrite (LoginView_post_fields check_password_hash login_form args _ e p Hle Hlp).
  cbn [users].
  rewrite (filter_by_email_snoc e (users st)
             (mkUser (next_user_id (users st)) u e n (generate_password_hash env p) now)
             Hemail eq_refl).
  unfold verify_password. cbn [password_hash]. rewrite Hcheck. cbn [fst snd].
  split; [done|]. apply lookup_insert_eq.
Qed.

(** [ForgotPasswordView.post] once the field is read, by the format of
    the email and the row found for it. *)
Lemma ForgotPasswordView_post_field (form : gmap string string) (now : Z) (st : App)
    (out : list Mail) (e : string) :
  form !! "email" = Some e →
  ForgotPasswordView_post env form now (st, out) =
    if email_format env e then
      match filter_by_email e (users st) with
      | Some u =>
          (Return (redirect "authentication.login"),
           ((flash "Check Your e-email to reset the password!" st).2,
            out ++ [mkMail (email u) "Flask simple chats reset password"
                           "authentication/emails/reset_password.txt" u
                           (get_reset_password_token env u None now)]))
      | None =>
          (Return (render_template "authentication/forgot_password.html" None),
           ((flash "User with such an e-mail does not exist" st).2, out))
      end
    else
      (Return (render_template "authentication/forgot_password.html" None),
       ((flash (email_format_message env) st).2, out)).
Proof.
  intros He. unfold ForgotPasswordView_post.
  rewrite (bind_form_get_Some _ _ _ _ _ He).
  unfold bind, in_app, try_except, lift_outcome, validate_email, gets. cbn [fst snd].
  destruct (email_format env e); [|done].
  cbn -[filter_by_email get_reset_password_token].
  by destruct (filter_by_email e (users st)) as [u|].
Qed.

(** X27. With ids unique in the users table, a forgotten-password
    request with a well-formed email that a row has answers with the
    redirect to login and hands over exactly one message, addressed to
    that email and carrying a reset-password token of that user;
    presented to ResetPasswordView.get at any moment up to the expiry of
    the default window, that token opens the reset page of that user. *)
Theorem ForgotPasswordView_post_then_get (form : gmap string string) (now later : Z)
    (st : App) (out : list Mail) (e : string) (u : User) :
  form !! "email" = Some e → email_format env e = true →
  filter_by_email e (users st) = Some u →
  NoDup (user_id <$> users st) →
  0 ≤ now + PASSWORD_DEFAULT_EXPIRES_IN env →
  later ≤ now + PASSWORD_DEFAULT_EXPIRES_IN env →
  let token := get_reset_password_token env u None now in
  let w := (ForgotPasswordView_post env form now (st, out)).2 in
  (ForgotPasswordView_post env form now (st, out)).1
    = Return (redirect "authentication.login")
  ∧ w.2 = out ++ [mkMail e "Flask simple chats reset password"
                         "authentication/emails/reset_password.txt" u token]
  ∧ ResetPasswordView_get env token later w.1
    = (Return (render_template "authentication/reset_password.html" (Some u)), w.1).
Proof.
  intros He Hfmt Hu Hnd Hpos Hlive token w. subst w.
  rewrite (ForgotPasswordView_post_field form now st out e He), Hfmt, Hu.
  destruct (filter_by_email_Some _ _ _ Hu) as [Hin Hmail]. cbn [fst snd].
  split; [done|]. split; [by rewrite Hmail|].
  rewrite ResetPasswordView_get_unfold, get_user_by_reset_password_token_unfold.
  subst token.
  change (get_reset_password_token env u None now)
    with (get_token env reset_password u None now).
  rewrite (get_user_by_token_live env reset_password reset_password u None now later);
    [done | | done | done].
  cbn [users flash modify snd]. by apply query_get_elem.
Qed.

(** X28. ForgotPasswordView.post never changes the users table, and it
    hands over a message only to the email of a row of the table: either
    the outbox is as it was, or it has grown by one message addressed to
    the email of a user, which is the email of the form. *)
Theorem ForgotPasswordView_post_mails_users_only (form : gmap string string) (now : Z)
    (st : App) (out : list Mail) :
  let w := (ForgotPasswordView_post env form now (st, out)).2 in
  users w.1 = users st
  ∧ (w.2 = out
     ∨ ∃ u, u ∈ users st ∧ form !! "email" = Some (email u)
            ∧ w.2 = out ++ [mkMail (email u) "Flask simple chats reset password"
                                   "authentication/emails/reset_password.txt" u
                                   (get_reset_password_token env u None now)]).
Proof.
  intros w. subst w. destruct (form !! "email") as [e|] eqn:He.
  - rewrite (ForgotPasswordView_post_field form now st out e He).
    destruct (email_format env e); [|by split; [|left]].
    destruct (filter_by_email e (users st)) as [u|] eqn:Hu; [|by split; [|left]].
    destruct (filter_by_email_Some _ _ _ Hu) as [Hin Hmail]. split; [done|].
    right. exists u. by rewrite Hmail.
  - unfold ForgotPasswordView_post. rewrite (bind_form_get_None _ _ _ _ He).
    by split; [|left].
Qed.

(** X29. logout, in any state, answers with the redirect to the index,
    leaves the users table alone and empties the session, so that the
    resolution of the next request sets g.user to None. *)
Theorem logout_then_recognize (st : App) :
  let st1 := (logout st).2 in
  (logout st).1 = Return (reply_redirect (url_for "view.index"))
  ∧ users st1 = users st
  ∧ session st1 = ∅
  ∧ recognize_logged_in_user st1 = (Return tt, set_g_user None st1).
Proof. done. Qed.

End MoreAuthFacts.

Section MoreAuthWitnesses.
Import Auth Views.

Lemma token_outcome_by_expiry_witness :
  get_user_by_token test_env reset_password 3700
    (get_token test_env reset_password user1 None 100) test_app = (Return user1, test_app)
  ∧ get_user_by_token test_env reset_password 3701
      (get_token test_env reset_password user1 None 100) test_app
    = (Raise SignatureExpired, test_app)
  ∧ get_user_by_token test_env authentication 100
      (get_token test_env authentication user1 (Some (-200)) 100) test_app
    = (Raise BadHeader, test_app).
Proof.
  split; [|split].
  - exact (token_outcome_by_expiry test_env reset_password user1 None 100 3700 test_app
             eq_refl).
  - exact (token_outcome_by_expiry test_env reset_password user1 None 100 3701 test_app
             eq_refl).
  - exact (token_outcome_by_expiry test_env authentication user1 (Some (-200)) 100 100
             test_app eq_refl).
Defined.

Lemma negative_period_rejected_at_issue_witness :
  get_user_by_token test_env authentication 100
    (get_token test_env authentication user1 (Some (-1)) 100) test_app
  = (Raise SignatureExpired, test_app)
  ∧ get_user_by_token test_env reset_password 100
      (get_token test_env reset_password user2 (Some (-200)) 100) test_app
    = (Raise BadHeader, test_app).
Proof.
  split.
  - apply (negative_period_rejected_at_issue test_env authentication user1 (-1) 100
             test_app). lia.
  - apply (negative_period_rejected_at_issue test_env reset_password user2 (-200) 100
             test_app). lia.
Defined.

Lemma ResetPasswordView_get_unknown_user_witness :
  ResetPasswordView_get test_env (get_reset_password_token test_env user2 None 100) 200
    (mkApp [user1] ∅ [] None)
  = (Raise UserNotFoundByIndexError, mkApp [user1] ∅ [] None).
Proof.
  apply (ResetPasswordView_get_unknown_user test_env user2 None 100 200).
  - reflexivity.
  - apply Z.leb_le. reflexivity.
  - apply Z.leb_le. reflexivity.
Defined.


Lemma ResetPasswordView_post_success_witness :
  let token := get_reset_password_token test_env user1 None 100 in
  let form : gmap string string :=
    {[ "password1" := "New password"; "password2" := "New password" ]} in
  let st' := (ResetPasswordView_post test_env token form 160 test_app).2 in
  (ResetPasswordView_post test_env token form 160 test_app).1
    = Return (redirect "authentication.login")
  ∧ query_get 1 (users st') = Some (set_password test_env user1 "New password")
  ∧ (∀ id, id ≠ 1 → query_get id (users st') = query_get id (users test_app))
  ∧ length (users st') = length (users test_app)
  ∧ session st' = session test_app.
Proof.
  intros token form.
  apply (ResetPasswordView_post_success test_env token form 160 test_app
           "New password" user1); try reflexivity.
  vm_compute. lia.
Defined.

Lemma reset_password_token_not_consumed_witness :
  let token := get_reset_password_token test_env user1 None 100 in
  let form : gmap string string :=
    {[ "password1" := "New password"; "password2" := "New password" ]} in
  let st' := (ResetPasswordView_post test_env token form 160 test_app).2 in
  get_user_by_reset_password_token test_env 160 token st'
  = (Return (set_password test_env user1 "New password"), st').
Proof.
  intros token form.
  apply (reset_password_token_not_consumed test_env token form 160 test_app
           "New password" user1); try reflexivity.
  vm_compute. lia.
Defined.

Lemma ResetPasswordView_post_rejects_witness :
  let token := get_reset_password_token test_env user2 None 100 in
  let form : gmap string string :=
    {[ "password1" := "New password"; "password2" := "Not a new password" ]} in
  ∃ message,
    ResetPasswordView_post test_env token form 160 test_app
    = (Return (render_template "authentication/reset_password.html" (Some user2)),
       mkApp (users test_app) (session test_app) (flashed test_app ++ [message])
             (g_user test_app)).
Proof.
  intros token form.
  apply (ResetPasswordView_post_rejects test_env token form 160 test_app
           "New password" "Not a new password" user2); try reflexivity.
  left. discriminate.
Defined.


Lemma RegisterView_post_keeps_users_ok_witness :
  let form : gmap string string :=
    {[ "email" := "test@gmail.com"; "username" := "test_user"; "name" := "Ann";
       "password1" := "Who am I"; "password2" := "Who am I" ]} in
  users_ok (users (RegisterView_post test_env form 5 test_app).2).
Proof.
  intros form. apply (RegisterView_post_keeps_users_ok test_env form 5 test_app).
  repeat split; apply (bool_decide_unpack _); vm_compute; exact I.
Defined.

Lemma RegisterView_post_success_witness :
  let form : gmap string string :=
    {[ "email" := "test@gmail.com"; "username" := "test_user"; "name" := "Ann";
       "password1" := "Who am I"; "password2" := "Who am I" ]} in
  let new := mkUser 3 "test_user" "test@gmail.com" "Ann" "salted:Who am I" 5 in
  let st' := (RegisterView_post test_env form 5 test_app).2 in
  (RegisterView_post test_env form 5 test_app).1 = Return (redirect "authentication.login")
  ∧ users st' = users test_app ++ [new]
  ∧ query_get 3 (users st') = Some new
  ∧ filter_by_email "test@gmail.com" (users st') = Some new
  ∧ filter_by_username "test_user" (users st') = Some new.
Proof.
  intros form.
  apply (RegisterView_post_success test_env form 5 test_app
           "test@gmail.com" "test_user" "Ann" "Who am I"); try reflexivity.
  - vm_compute. lia.
  - vm_compute. lia.
Defined.

Lemma RegisterView_post_missing_field_witness :
  let form : gmap string string :=
    {[ "email" := "test@gmail.com"; "username" := "test_user"; "name" := "Ann";
       "password1" := "Who am I" ]} in
  RegisterView_post test_env form 5 test_app = (Raise BadRequestKeyError, test_app).
Proof.
  intros form.
  apply (RegisterView_post_missing_field test_env form 5 test_app "password2").
  - set_solver.
  - reflexivity.
Defined.


Lemma LoginView_post_rejects_witness :
  let form : gmap string string := {[ "email" := "user1@gmail.com"; "password" := "p" ]} in
  LoginView_post test_check_password_hash form ∅ test_app
  = (Return (reply_template "authentication/login.html"),
     mkApp (users test_app) (session test_app)
           (flashed test_app ++ ["Wrong password! Try again"]) (g_user test_app)).
Proof.
  intros form.
  apply (proj2 (LoginView_post_rejects test_check_password_hash form ∅ test_app
                  "user1@gmail.com" "p" eq_refl eq_refl) user1); reflexivity.
Defined.

Lemma LoginView_post_then_recognize_witness :
  let st := mkApp [user1; mkUser 2 "user2" "user2@gmail.com" "name2" "salted:Who am I" 0]
                  ∅ [] None in
  let form : gmap string string :=
    {[ "email" := "user2@gmail.com"; "password" := "Who am I" ]} in
  let st1 := (LoginView_post test_check_password_hash form ∅ st).2 in
  (LoginView_post test_check_password_hash form ∅ st).1
    = Return (reply_redirect (next_or_index ∅))
  ∧ session st1 !! "current_user_id" = Some 2
  ∧ users st1 = users st
  ∧ recognize_logged_in_user st1
    = (Return tt,
       set_g_user (Some (mkUser 2 "user2" "user2@gmail.com" "name2" "salted:Who am I" 0))
                  st1).
Proof.
  intros st form.
  apply (LoginView_post_then_recognize test_check_password_hash form ∅ st
           "user2@gmail.com" "Who am I"
           (mkUser 2 "user2" "user2@gmail.com" "name2" "salted:Who am I" 0));
    try reflexivity.
  apply (bool_decide_unpack _). vm_compute. exact I.
Defined.

Lemma RegisterView_post_then_LoginView_post_witness :
  let form : gmap string string :=
    {[ "email" := "test@gmail.com"; "username" := "test_user"; "name" := "Ann";
       "password1" := "Who am I"; "password2" := "Who am I" ]} in
  let login_form : gmap string string :=
    {[ "email" := "test@gmail.com"; "password" := "Who am I" ]} in
  let st1 := (RegisterView_post test_env form 5 test_app).2 in
  (LoginView_post test_check_password_hash login_form ∅ st1).1
    = Return (reply_redirect (next_or_index ∅))
  ∧ session (LoginView_post test_check_password_hash login_form ∅ st1).2
      !! "current_user_id" = Some 3.
Proof.
  intros form login_form.
  apply (RegisterView_post_then_LoginView_post test_env test_check_password_hash
           form login_form ∅ 5 test_app "test@gmail.com" "test_user" "Ann" "Who am I");
    try reflexivity.
  - vm_compute. lia.
  - vm_compute. lia.
Defined.

Lemma ForgotPasswordView_post_then_get_witness :
  let form : gmap string string := {[ "email" := "user2@gmail.com" ]} in
  let token := get_reset_password_token test_env user2 None 10 in
  let w := (ForgotPasswordView_post test_env form 10 (test_app, [])).2 in
  (ForgotPasswordView_post test_env form 10 (test_app, [])).1
    = Return (redirect "authentication.login")
  ∧ w.2 = [] ++ [mkMail "user2@gmail.com" "Flask simple chats reset password"
                        "authentication/emails/reset_password.txt" user2 token]
  ∧ ResetPasswordView_get test_env token 3610 w.1
    = (Return (render_template "authentication/reset_password.html" (Some user2)), w.1).
Proof.
  intros form.
  apply (ForgotPasswordView_post_then_get test_env form 10 3610 test_app []
           "user2@gmail.com" user2); try reflexivity.
  - apply (bool_decide_unpack _). vm_compute. exact I.
  - apply Z.leb_le. reflexivity.
Defined.

End MoreAuthWitnesses.
